(** * Validation rules of microdata-tools over the canonical table

    A shallow embedding of
    [microdata_tools/validation/steps/dataset_validator.py] and
    [microdata_tools/validation/steps/data_reader.py].

    The canonical table is a list of rows, in file order.  A nullable
    Arrow cell is an [option]; an Arrow filter expression evaluates to a
    three-valued boolean ([option bool], with [None] for null) and a
    filtered read keeps the rows where it is [Some true].  Python
    exceptions are values of [exn], a function that may raise returns a
    [result]. *)

From Stdlib Require Import ZArith List String Ascii Bool Lia Arith.
From Stdlib Require Import Sorting.Sorted Permutation.
Import ListNotations.

Local Open Scope string_scope.
Local Open Scope list_scope.

(** ** Data model *)

(** A cell of the [value] column.  The column has one of four Arrow types,
    chosen by the declared measure type: string, int64, float64 (kept as
    its 64-bit pattern) or int16 for an epoch-day encoded date. *)
Inductive value : Type :=
| VString (s : string)
| VLong (n : Z)
| VDouble (bits : Z)
| VDate (days : Z).

Definition value_eqb (a b : value) : bool :=
  match a, b with
  | VString s, VString s' => String.eqb s s'
  | VLong n, VLong n' => Z.eqb n n'
  | VDouble n, VDouble n' => Z.eqb n n'
  | VDate n, VDate n' => Z.eqb n n'
  | _, _ => false
  end.

Record row : Type := mkRow {
  unit_id : option string;
  value_ : option value;
  start_year : option string;
  start_epoch_days : option Z;
  stop_epoch_days : option Z
}.

(** The parquet file at [parquet_path], as the rows it stores. *)
Definition table : Type := list row.

Record code_list_item : Type := mkCode {
  code : value;
  description : string
}.

(** ** Exceptions and results *)

(** The pieces of an f-string: literal text, an interpolated Python list
    of identifiers, an interpolated Arrow table with its [unit_id]
    column, or an interpolated Arrow scalar between double quotes. *)
Inductive fragment : Type :=
| Text (s : string)
| PyList (identifiers : list (option string))
| ArrowTable (unit_ids : list (option string))
| QuotedScalar (cell : option string).

Definition message : Type := list fragment.

Inductive exn : Type :=
| ValueError (msg : message)
| ValidationError (msg : string) (errors : list message)
| TypeError (msg : string)
| KeyError (key : string)
| IndexError
| OverflowError.

Inductive result (A : Type) : Type :=
| Ok (a : A)
| Raise (e : exn).
Arguments Ok {A} a.
Arguments Raise {A} e.

Definition bind {A B : Type} (r : result A) (k : A -> result B) : result B :=
  match r with
  | Ok a => k a
  | Raise e => Raise e
  end.

Notation "x <- r ;; k" := (bind r (fun x => k))
  (at level 61, r at next level, right associativity).
Notation "r ;;; k" := (bind r (fun _ => k))
  (at level 61, right associativity).

Definition passes {A : Type} (r : result A) : bool :=
  match r with Ok _ => true | Raise _ => false end.

(** ** Arrow expressions *)

Definition is_null {A : Type} (c : option A) : option bool :=
  Some (match c with None => true | Some _ => false end).

Definition is_valid {A : Type} (c : option A) : option bool :=
  Some (match c with None => false | Some _ => true end).

(** [|] on expressions is Arrow's [or_kleene]. *)
Definition or_kleene (a b : option bool) : option bool :=
  match a, b with
  | Some true, _ | _, Some true => Some true
  | Some false, Some false => Some false
  | _, _ => None
  end.

Definition invert (a : option bool) : option bool := option_map negb a.

Definition compare_cells {A : Type} (op : A -> A -> bool) (a b : option A)
  : option bool :=
  match a, b with
  | Some x, Some y => Some (op x y)
  | _, _ => None
  end.

Definition equal_str := compare_cells String.eqb.
Definition equal_value := compare_cells value_eqb.
Definition equal_days := compare_cells Z.eqb.
Definition not_equal_days := compare_cells (fun x y => negb (Z.eqb x y)).
Definition greater_equal_days := compare_cells Z.geb.

(** [is_in] with the default [skip_nulls=False]: a null cell matches only
    a null in the value set, and the result is never null. *)
Definition is_in {A : Type} (eqb : A -> A -> bool) (c : option A)
  (value_set : list (option A)) : option bool :=
  Some (existsb (fun v =>
                   match c, v with
                   | Some x, Some y => eqb x y
                   | None, None => true
                   | _, _ => false
                   end) value_set).

Definition selected (e : option bool) : bool :=
  match e with Some true => true | _ => false end.

(** [dataset.dataset(parquet_path).to_table(filter=..., columns=[c])]. *)
Definition to_table {C : Type} (parquet_path : table)
  (filter : row -> option bool) (column : row -> C) : list C :=
  map column (List.filter (fun r => selected (filter r)) parquet_path).

Definition all_rows (_ : row) : option bool := Some true.

(** [compute.unique]: the distinct cells in order of first appearance. *)
Fixpoint unique {A : Type} (eqb : A -> A -> bool) (l : list A) : list A :=
  match l with
  | [] => []
  | x :: l' => x :: List.filter (fun y => negb (eqb x y)) (unique eqb l')
  end.

Definition option_eqb {A : Type} (eqb : A -> A -> bool) (a b : option A) : bool :=
  match a, b with
  | Some x, Some y => eqb x y
  | None, None => true
  | _, _ => false
  end.

(** ** dataset_validator.py *)

Definition _format_error_message (invalid_rows : list (option string))
  (msg : string) : message :=
  let invalid_identifiers := firstn 5 invalid_rows in
  [Text msg; Text ". For rows with identifiers: ";
   PyList invalid_identifiers; Text "..."].

(** [isin] is embedded for codes of the type of the value column;
    pyarrow converts a code set of another type to the type of the
    column before it compares. *)
Definition valid_value_column_check (parquet_path : table)
  (data_type : string) (code_list sentinel_list : option (list code_list_item))
  : result unit :=
  let is_null_filter := fun r => is_null (value_ r) in
  let is_empty_string_filter :=
    fun r => equal_value (value_ r) (Some (VString "")) in
  let invalid_rows_filter :=
    if String.eqb data_type "STRING"
    then fun r => or_kleene (is_null_filter r) (is_empty_string_filter r)
    else is_null_filter in
  let invalid_rows := to_table parquet_path invalid_rows_filter unit_id in
  (if (0 <? List.length invalid_rows)%nat
   then Raise (ValueError [Text "valid_value_column_check"])
   else Ok tt) ;;;
  match code_list with
  | Some ((_ :: _) as codes) =>
      let unique_codes := unique value_eqb (map code codes) in
      let unique_codes :=
        match sentinel_list with
        | Some sentinels =>
            unique_codes ++ unique value_eqb (map code sentinels)
        | None => unique_codes
        end in
      let invalid_code_filter :=
        fun r => invert (is_in value_eqb (value_ r) (map Some unique_codes)) in
      let invalid_rows := to_table parquet_path invalid_code_filter value_ in
      if (0 <? List.length invalid_rows)%nat
      then Raise (ValueError [Text "invalid code list rows"])
      else Ok tt
  | _ => Ok tt
  end.

Definition valid_unit_id_check (parquet_path : table) : result unit :=
  let is_null_filter := fun r => is_null (unit_id r) in
  let is_empty_string_filter := fun r => equal_str (unit_id r) (Some "") in
  let invalid_rows_filter :=
    fun r => or_kleene (is_null_filter r) (is_empty_string_filter r) in
  let invalid_rows := to_table parquet_path invalid_rows_filter unit_id in
  if (0 <? List.length invalid_rows)%nat
  then Raise (ValueError [Text "valid_unit_id_column_check"])
  else Ok tt.

Definition fixed_temporal_variables_check (parquet_path : table)
  : result unit :=
  let start_is_valid_filter := fun r => is_valid (start_epoch_days r) in
  let stop_is_null_filter := fun r => is_null (stop_epoch_days r) in
  let invalid_rows :=
    to_table parquet_path
      (fun r => or_kleene (start_is_valid_filter r) (stop_is_null_filter r))
      unit_id in
  if (0 <? List.length invalid_rows)%nat
  then Raise (ValueError [Text "valid_unit_id_column_check"])
  else Ok tt.

Definition status_temporal_variables_check (parquet_path : table)
  : result unit :=
  let invalid_rows :=
    to_table parquet_path
      (fun r => or_kleene (is_null (stop_epoch_days r))
                          (is_null (start_epoch_days r)))
      unit_id in
  (if (0 <? List.length invalid_rows)%nat
   then Raise (ValueError
                 [Text ("No row can have an empty start or stop column with "
                        ++ "temporalityType: STATUS")])
   else Ok tt) ;;;
  let invalid_rows :=
    to_table parquet_path
      (fun r => not_equal_days (start_epoch_days r) (stop_epoch_days r))
      unit_id in
  if (0 <? List.length invalid_rows)%nat
  then Raise (ValueError [Text "start did not equal stop"])
  else Ok tt.

Definition event_temporal_variables_check (parquet_path : table)
  : result unit :=
  let start_is_null_filter := fun r => is_null (start_epoch_days r) in
  let start_be_stop_filter :=
    fun r => greater_equal_days (start_epoch_days r) (stop_epoch_days r) in
  let invalid_rows :=
    to_table parquet_path
      (fun r => or_kleene (start_is_null_filter r) (start_be_stop_filter r))
      unit_id in
  if (0 <? List.length invalid_rows)%nat
  then Raise (ValueError [Text "valid_event_temporal_columns_check ";
                          ArrowTable invalid_rows])
  else Ok tt.

Definition accumulated_temporal_variables_check (parquet_path : table)
  : result unit :=
  let start_is_null_filter := fun r => is_null (start_epoch_days r) in
  let stop_is_null_filter := fun r => is_null (stop_epoch_days r) in
  let start_be_stop_filter :=
    fun r => greater_equal_days (start_epoch_days r) (stop_epoch_days r) in
  let invalid_rows :=
    to_table parquet_path
      (fun r => or_kleene (or_kleene (start_is_null_filter r)
                                     (stop_is_null_filter r))
                          (start_be_stop_filter r))
      unit_id in
  if (0 <? List.length invalid_rows)%nat
  then Raise (ValueError [Text "valid_accumulated_temporal_columns_check ";
                          ArrowTable invalid_rows])
  else Ok tt.

(** A [for] loop whose body may raise: the first exception leaves the
    loop. *)
Fixpoint for_each {A : Type} (l : list A) (body : A -> result unit)
  : result unit :=
  match l with
  | [] => Ok tt
  | x :: l' => body x ;;; for_each l' body
  end.

(** [compute.utf8_slice_codeunits(column, start=0, stop=stop)] on one
    cell; a string is its sequence of characters. *)
Definition utf8_slice_codeunits (c : option string) (stop : nat)
  : option string :=
  option_map (substring 0 stop) c.

Definition unit_id_eqb : option string -> option string -> bool :=
  option_eqb String.eqb.

Definition only_unique_identifiers_check (parquet_path : table)
  : result unit :=
  let identifiers := to_table parquet_path all_rows unit_id in
  let identifiers :=
    map (fun u => (utf8_slice_codeunits u 1, u)) identifiers in
  let unique_buckets := unique unit_id_eqb (map fst identifiers) in
  for_each unique_buckets (fun unique_bucket =>
    let bucket_table :=
      List.filter (fun r => selected (equal_str (fst r) unique_bucket))
        identifiers in
    let bucket_row_count := List.length bucket_table in
    let unique_identifiers_count :=
      List.length (unique unit_id_eqb (map snd bucket_table)) in
    if negb (unique_identifiers_count =? bucket_row_count)%nat
    then Raise (ValueError [Text "identifier diff"])
    else Ok tt).

Definition days_eqb : option Z -> option Z -> bool := option_eqb Z.eqb.

Definition status_uniquesness_check (parquet_path : table) : result unit :=
  let all_status_dates := to_table parquet_path all_rows start_epoch_days in
  let unique_status_dates := unique days_eqb all_status_dates in
  for_each unique_status_dates (fun status_date =>
    let status_table :=
      to_table parquet_path
        (fun r => equal_days (start_epoch_days r) status_date) unit_id in
    let unique_identifiers := unique unit_id_eqb status_table in
    if negb (List.length unique_identifiers =? List.length status_table)%nat
    then Raise (ValueError [Text "status uniqueness fail"])
    else Ok tt).

(** *** Overlap detection *)

(** [find_overlap]: the loop over [range(len(start_list) - 1)], reading
    [stop_list[i]] and [start_list[i + 1]].  Comparing an integer with
    [None] is a [TypeError]. *)
Fixpoint find_overlap_loop (start_list stop_list : list (option Z))
  (indices : list nat) : result bool :=
  match indices with
  | [] => Ok false
  | i :: rest =>
      match nth_error stop_list i with
      | None => Raise IndexError
      | Some None => Ok true
      | Some (Some stop_i) =>
          match nth_error start_list (i + 1) with
          | None => Raise IndexError
          | Some None =>
              Raise (TypeError
                       "'>' not supported between instances of 'int' and 'NoneType'")
          | Some (Some start_next) =>
              if (stop_i >? start_next)%Z then Ok true
              else find_overlap_loop start_list stop_list rest
          end
      end
  end.

Definition find_overlap (start_list stop_list : list (option Z))
  : result bool :=
  find_overlap_loop start_list stop_list
    (seq 0 (List.length start_list - 1)).

(** [range(0, stop, step)]; a zero step is a [ValueError]. *)
Definition range_step (stop step : nat) : result (list nat) :=
  match step with
  | O => Raise (ValueError [Text "range() arg 3 must not be zero"])
  | S _ => Ok (map (fun k => k * step) (seq 0 ((stop + step - 1) / step)))
  end.

Definition batch {A : Type} (iterable : list A) (batch_size : nat)
  : result (list (list A)) :=
  indices <- range_step (List.length iterable) batch_size ;;
  Ok (map (fun index => firstn batch_size (skipn index iterable)) indices).

(** Order of the sort key: ascending, nulls last. *)
Definition start_leb (a b : option Z) : bool :=
  match a, b with
  | Some x, Some y => (x <=? y)%Z
  | _, None => true
  | None, Some _ => false
  end.

Fixpoint insert_by_start (r : row) (l : list row) : list row :=
  match l with
  | [] => [r]
  | r' :: l' =>
      if start_leb (start_epoch_days r) (start_epoch_days r')
      then r :: l
      else r' :: insert_by_start r l'
  end.

(** [sort_by([("start_epoch_days", "ascending")])]: a stable sort, rows
    with equal keys keep their order. *)
Fixpoint sort_by_start (l : list row) : list row :=
  match l with
  | [] => []
  | r :: l' => insert_by_start r (sort_by_start l')
  end.

Record time_spans : Type := mkSpans {
  spans_unit_id : option string;
  start_epoch_days_list : list (option Z);
  stop_epoch_days_list : list (option Z)
}.

(** [group_by("unit_id").aggregate([... "list" ...])]: one row per
    identifier, the lists in the order of the rows. *)
Definition group_by_unit_id (l : list row) : list time_spans :=
  map (fun u =>
         let rows := List.filter (fun r => unit_id_eqb (unit_id r) u) l in
         mkSpans u (map start_epoch_days rows) (map stop_epoch_days rows))
      (unique unit_id_eqb (map unit_id l)).

Definition overlap_error (u : option string) : exn :=
  ValidationError "Found overlapping timespans for dataset"
    [[Text "Invalid overlapping timespans for identifier ";
      QuotedScalar u]].

Definition no_overlapping_timespans_check_with (batch_size : nat)
  (parquet_path : table) : result unit :=
  let identifiers := to_table parquet_path all_rows unit_id in
  let unique_identifiers := unique unit_id_eqb identifiers in
  batches <- batch unique_identifiers batch_size ;;
  for_each batches (fun identifier_batch =>
    let identifier_time_spans :=
      List.filter
        (fun r => selected (is_in String.eqb (unit_id r) identifier_batch))
        parquet_path in
    let identifier_time_spans := sort_by_start identifier_time_spans in
    let identifier_time_spans := group_by_unit_id identifier_time_spans in
    for_each identifier_time_spans (fun spans =>
      overlap <- find_overlap (start_epoch_days_list spans)
                              (stop_epoch_days_list spans) ;;
      if overlap : bool then Raise (overlap_error (spans_unit_id spans))
      else Ok tt)).

Definition BATCH_SIZE : nat := Z.to_nat 5000000.

Definition no_overlapping_timespans_check : table -> result unit :=
  no_overlapping_timespans_check_with BATCH_SIZE.

(** *** validate_dataset *)

(** The rules, named after the functions that implement them. *)
Inductive rule : Type :=
| ValidUnitId
| ValidValueColumn
| FixedTemporalVariables
| OnlyUniqueIdentifiers
| StatusTemporalVariables
| StatusUniqueness
| AccumulatedTemporalVariables
| EventTemporalVariables
| NoOverlappingTimespans.

(** A computation that may raise and that appends to the log of the
    rules it has called. *)
Definition traced (A : Type) : Type := list rule -> list rule * result A.

Definition tret {A : Type} (a : A) : traced A := fun log => (log, Ok a).

Definition tbind {A B : Type} (m : traced A) (k : A -> traced B) : traced B :=
  fun log =>
    let (log', r) := m log in
    match r with
    | Ok a => k a log'
    | Raise e => (log', Raise e)
    end.

Definition call (name : rule) (outcome : result unit) : traced unit :=
  fun log => (log ++ [name], outcome).

Notation "m >> k" := (tbind m (fun _ => k))
  (at level 62, right associativity).

Definition validate_dataset (parquet_path : table)
  (measure_data_type : string)
  (code_list sentinel_list : option (list code_list_item))
  (temporality_type : string) : traced unit :=
  call ValidUnitId (valid_unit_id_check parquet_path) >>
  call ValidValueColumn
    (valid_value_column_check parquet_path measure_data_type
       code_list sentinel_list) >>
  if temporality_type =? "FIXED" then
    call FixedTemporalVariables
      (fixed_temporal_variables_check parquet_path) >>
    call OnlyUniqueIdentifiers (only_unique_identifiers_check parquet_path)
  else if temporality_type =? "STATUS" then
    call StatusTemporalVariables
      (status_temporal_variables_check parquet_path) >>
    call StatusUniqueness (status_uniquesness_check parquet_path)
  else if temporality_type =? "ACCUMULATED" then
    call AccumulatedTemporalVariables
      (accumulated_temporal_variables_check parquet_path) >>
    call NoOverlappingTimespans (no_overlapping_timespans_check parquet_path)
  else if temporality_type =? "EVENT" then
    call EventTemporalVariables
      (event_temporal_variables_check parquet_path) >>
    call NoOverlappingTimespans (no_overlapping_timespans_check parquet_path)
  else tret tt.

(** What each rule answers on its own, and the order the dispatcher
    gives them for a temporality type. *)
Definition rule_outcome (parquet_path : table) (measure_data_type : string)
  (code_list sentinel_list : option (list code_list_item)) (r : rule)
  : result unit :=
  match r with
  | ValidUnitId => valid_unit_id_check parquet_path
  | ValidValueColumn =>
      valid_value_column_check parquet_path measure_data_type
        code_list sentinel_list
  | FixedTemporalVariables => fixed_temporal_variables_check parquet_path
  | OnlyUniqueIdentifiers => only_unique_identifiers_check parquet_path
  | StatusTemporalVariables => status_temporal_variables_check parquet_path
  | StatusUniqueness => status_uniquesness_check parquet_path
  | AccumulatedTemporalVariables =>
      accumulated_temporal_variables_check parquet_path
  | EventTemporalVariables => event_temporal_variables_check parquet_path
  | NoOverlappingTimespans => no_overlapping_timespans_check parquet_path
  end.

Definition rule_order (temporality_type : string) : list rule :=
  [ValidUnitId; ValidValueColumn] ++
  (if temporality_type =? "FIXED"
   then [FixedTemporalVariables; OnlyUniqueIdentifiers]
   else if temporality_type =? "STATUS"
   then [StatusTemporalVariables; StatusUniqueness]
   else if temporality_type =? "ACCUMULATED"
   then [AccumulatedTemporalVariables; NoOverlappingTimespans]
   else if temporality_type =? "EVENT"
   then [EventTemporalVariables; NoOverlappingTimespans]
   else []).

(** ** data_reader.py *)

(** *** Calendar dates of the Python standard library *)

Local Open Scope Z_scope.

Definition _DAYS_IN_MONTH (month : Z) : Z :=
  nth (Z.to_nat month) [-1; 31; 28; 31; 30; 31; 30; 31; 31; 30; 31; 30; 31] 0.

Definition _DAYS_BEFORE_MONTH (month : Z) : Z :=
  nth (Z.to_nat month)
    [-1; 0; 31; 59; 90; 120; 151; 181; 212; 243; 273; 304; 334] 0.

Definition b2z (b : bool) : Z := if b then 1 else 0.

(** [_ord2ymd]: year, month and day of a proleptic Gregorian ordinal,
    where day 1 is 0001-01-01. *)
Definition _ord2ymd (n : Z) : Z * Z * Z :=
  let n := n - 1 in
  let n400 := n / 146097 in
  let n := n mod 146097 in
  let year := n400 * 400 + 1 in
  let n100 := n / 36524 in
  let n := n mod 36524 in
  let n4 := n / 1461 in
  let n := n mod 1461 in
  let n1 := n / 365 in
  let n := n mod 365 in
  let year := year + n100 * 100 + n4 * 4 + n1 in
  if (n1 =? 4) || (n100 =? 4) then (year - 1, 12, 31)
  else
    let leapyear := (n1 =? 3) && (negb (n4 =? 24) || (n100 =? 3)) in
    let month := Z.shiftr (n + 50) 5 in
    let preceding :=
      _DAYS_BEFORE_MONTH month + b2z ((month >? 2) && leapyear) in
    if preceding >? n then
      let month := month - 1 in
      let preceding :=
        preceding - (_DAYS_IN_MONTH month + b2z ((month =? 2) && leapyear)) in
      (year, month, n - preceding + 1)
    else (year, month, n - preceding + 1).

Definition digit (d : Z) : ascii := ascii_of_nat (48 + Z.to_nat (d mod 10)).

(** A non-negative number in [width] decimal digits, zero padded. *)
Fixpoint zero_padded (width : nat) (n : Z) : string :=
  match width with
  | O => EmptyString
  | S w => (zero_padded w (n / 10) ++ String (digit n) EmptyString)%string
  end.

(** [strftime("%Y-%m-%d")] for a four-digit year. *)
Definition strftime (ymd : Z * Z * Z) : string :=
  let '(y, m, d) := ymd in
  (zero_padded 4 y ++ "-" ++ zero_padded 2 m ++ "-" ++ zero_padded 2 d)%string.

(** Ordinal of [datetime(1970, 1, 1)], and of the last day [datetime]
    holds, 9999-12-31. *)
Definition EPOCH_ORDINAL : Z := 719163.
Definition MAX_ORDINAL : Z := 3652059.

Definition date_string (days : Z) : string :=
  strftime (_ord2ymd (EPOCH_ORDINAL + days)).

(** [(datetime(1970, 1, 1) + timedelta(days=days)).strftime("%Y-%m-%d")]. *)
Definition epoch_date_string (days : option Z) : result string :=
  match days with
  | None =>
      Raise (TypeError "unsupported type for timedelta days component: NoneType")
  | Some d =>
      if (1 <=? EPOCH_ORDINAL + d) && (EPOCH_ORDINAL + d <=? MAX_ORDINAL)
      then Ok (date_string d)
      else Raise OverflowError
  end.

(** *** Temporal coverage *)

Fixpoint some_values {A : Type} (column : list (option A)) : list A :=
  match column with
  | [] => []
  | Some x :: l => x :: some_values l
  | None :: l => some_values l
  end.

(** Python's [min] and [max] of a list of integers; the empty list is a
    [ValueError]. *)
Definition py_min (l : list Z) : result Z :=
  match l with
  | [] => Raise (ValueError [Text "min() arg is an empty sequence"])
  | x :: l' => Ok (fold_left Z.min l' x)
  end.

Definition py_max (l : list Z) : result Z :=
  match l with
  | [] => Raise (ValueError [Text "max() arg is an empty sequence"])
  | x :: l' => Ok (fold_left Z.max l' x)
  end.

(** [compute.max] and [compute.min_max] skip nulls and answer null when
    no value is left. *)
Definition compute_max (column : list (option Z)) : option Z :=
  match some_values column with
  | [] => None
  | x :: l => Some (fold_left Z.max l x)
  end.

Definition compute_min (column : list (option Z)) : option Z :=
  match some_values column with
  | [] => None
  | x :: l => Some (fold_left Z.min l x)
  end.

Definition compute_min_max (column : list (option Z)) : option Z * option Z :=
  (compute_min column, compute_max column).

(** The dictionary [temporal_data]: the key [statusDates] is present
    for STATUS only. *)
Record temporal_data : Type := mkTemporal {
  td_start : string;
  td_latest : string;
  td_statusDates : option (list string)
}.

Fixpoint map_result {A B : Type} (f : A -> result B) (l : list A)
  : result (list B) :=
  match l with
  | [] => Ok []
  | x :: l' =>
      y <- f x ;;
      ys <- map_result f l' ;;
      Ok (y :: ys)
  end.

Definition get_temporal_data (table : list row) (temporality_type : string)
  : result temporal_data :=
  start_latest <-
    (if (temporality_type =? "FIXED")%string then
       let stop_max := compute_max (map stop_epoch_days table) in
       latest <- epoch_date_string stop_max ;;
       Ok ("1900-01-01"%string, latest)
     else
       let '(start_min, start_max) :=
         compute_min_max (map start_epoch_days table) in
       let '(stop_min, stop_max) :=
         compute_min_max (map stop_epoch_days table) in
       min_date <- py_min (some_values [start_min; stop_min]) ;;
       max_date <- py_max (some_values [start_max; stop_max]) ;;
       start <- epoch_date_string (Some min_date) ;;
       latest <- epoch_date_string (Some max_date) ;;
       Ok (start, latest)) ;;
  if (temporality_type =? "STATUS")%string then
    status_dates <-
      map_result epoch_date_string
        (unique days_eqb (map start_epoch_days table)) ;;
    Ok (mkTemporal (fst start_latest) (snd start_latest) (Some status_dates))
  else Ok (mkTemporal (fst start_latest) (snd start_latest) None).

(** [list.sort()] on strings. *)
Fixpoint insert_string (s : string) (l : list string) : list string :=
  match l with
  | [] => [s]
  | s' :: l' =>
      if String.leb s s' then s :: l else s' :: insert_string s l'
  end.

Fixpoint sort_strings (l : list string) : list string :=
  match l with
  | [] => []
  | s :: l' => insert_string s (sort_strings l')
  end.

(** The keys of [metadata] and of its [dataRevision] that the reader
    touches; a key that is not set yet is [None]. *)
Record data_revision : Type := mkRevision {
  temporalCoverageStart : option string;
  temporalCoverageLatest : option string;
  temporalStatusDates : option (list string)
}.

Record metadata : Type := mkMetadata {
  dataRevision : data_revision;
  temporalityType : string
}.

(** [metadata_update_temporal_coverage] mutates both dictionaries: the
    status dates are sorted in place and the revision holds the same
    list.  It answers the two dictionaries as they are left, and whether
    it raised. *)
Definition metadata_update_temporal_coverage (md : metadata)
  (td : temporal_data) : metadata * temporal_data * result unit :=
  let data_revision := dataRevision md in
  let temporality_type := temporalityType md in
  let data_revision :=
    mkRevision (Some (td_start td)) (Some (td_latest td))
      (temporalStatusDates data_revision) in
  if (temporality_type =? "STATUS")%string then
    match td_statusDates td with
    | None =>
        (mkMetadata data_revision temporality_type, td,
         Raise (KeyError "statusDates"))
    | Some temporal_status_dates_list =>
        let temporal_status_dates_list :=
          sort_strings temporal_status_dates_list in
        (mkMetadata
           (mkRevision (temporalCoverageStart data_revision)
              (temporalCoverageLatest data_revision)
              (Some temporal_status_dates_list))
           temporality_type,
         mkTemporal (td_start td) (td_latest td)
           (Some temporal_status_dates_list),
         Ok tt)
    end
  else (mkMetadata data_revision temporality_type, td, Ok tt).

(** The 16-bit range of the epoch-day columns. *)
Definition int16 (z : Z) : bool := (-32768 <=? z) && (z <=? 32767).

Definition int16_cell (c : option Z) : bool :=
  match c with None => true | Some z => int16 z end.

Definition int16_table (t : table) : bool :=
  forallb (fun r => int16_cell (start_epoch_days r)
                    && int16_cell (stop_epoch_days r)) t.

Local Close Scope Z_scope.

(** *** Reading the file *)

Inductive arrow_type : Type :=
| pa_string
| pa_int64
| pa_float64
| pa_date32.

Definition get_csv_read_options : list string :=
  ["unit_id"; "value"; "start"; "stop"; "attributes"].

(** The [column_types] of the convert options. *)
Record csv_convert_options : Type := mkConvert {
  type_unit_id : arrow_type;
  type_value : arrow_type;
  type_start : arrow_type;
  type_stop : arrow_type;
  type_attributes : arrow_type
}.

Definition get_csv_convert_options (measure_data_type : string)
  : result csv_convert_options :=
  pyarrow_data_type <-
    (if measure_data_type =? "STRING" then Ok pa_string
     else if measure_data_type =? "LONG" then Ok pa_int64
     else if measure_data_type =? "DOUBLE" then Ok pa_float64
     else if measure_data_type =? "DATE" then Ok pa_date32
     else Raise (ValidationError "Unsupported measure data type"
                   [[Text "Unsupported measure data type: ";
                     Text measure_data_type]])) ;;
  Ok (mkConvert pa_string pyarrow_data_type pa_date32 pa_date32 pa_string).

(** A row of the table [csv.read_csv] returns: the five columns of the
    file, the dates as days since 1970-01-01 (date32). *)
Record raw_row : Type := mkRaw {
  raw_unit_id : option string;
  raw_value : option value;
  raw_start : option Z;
  raw_stop : option Z;
  raw_attributes : option string
}.

(** What [csv.read_csv] answers for the file under given options: the
    table, or [ArrowInvalid] with the parser's diagnostic. *)
Inductive csv_outcome : Type :=
| CsvTable (rows : list raw_row)
| CsvInvalid (diagnostic : string).

(** What the reader answers: a table, an [ArrowInvalid] of a cast with
    the value that does not fit, or a Python exception. *)
Inductive read_result (A : Type) : Type :=
| Read (a : A)
| RaiseArrowInvalid (not_in_range : Z)
| RaisePython (e : exn).
Arguments Read {A} a.
Arguments RaiseArrowInvalid {A} not_in_range.
Arguments RaisePython {A} e.

Definition rbind {A B : Type} (r : read_result A) (k : A -> read_result B)
  : read_result B :=
  match r with
  | Read a => k a
  | RaiseArrowInvalid z => RaiseArrowInvalid z
  | RaisePython e => RaisePython e
  end.

(** [compute.utf8_trim(column, " ")] on one string: the spaces at both
    ends are removed. *)
Fixpoint ltrim (s : string) : string :=
  match s with
  | EmptyString => EmptyString
  | String c s' => if Ascii.eqb c " " then ltrim s' else s
  end.

Fixpoint rtrim (s : string) : string :=
  match s with
  | EmptyString => EmptyString
  | String c s' =>
      match rtrim s' with
      | EmptyString => if Ascii.eqb c " " then EmptyString
                       else String c EmptyString
      | r => String c r
      end
  end.

Definition utf8_trim (s : string) : string := rtrim (ltrim s).

Definition trim_value (v : value) : value :=
  match v with
  | VString s => VString (utf8_trim s)
  | _ => v
  end.

(** [cast(pyarrow.int32()).cast(pyarrow.int16())]: a checked cast, a
    value outside the 16-bit range is an [ArrowInvalid]. *)
Definition cast_int16 (column : list (option Z))
  : read_result (list (option Z)) :=
  match find (fun c => negb (int16_cell c)) column with
  | Some (Some z) => RaiseArrowInvalid z
  | _ => Read column
  end.

Definition value_days (v : option value) : option Z :=
  match v with
  | Some (VDate d) => Some d
  | _ => None
  end.

(** The same cast on the dates of a value column read as date32. *)
Definition cast_value_int16 (column : list (option value))
  : read_result (list (option value)) :=
  match find (fun c => negb (int16_cell c)) (map value_days column) with
  | Some (Some z) => RaiseArrowInvalid z
  | _ => Read column
  end.

(** [pyarrow.Table.from_arrays] on the five columns. *)
Fixpoint from_arrays (identifier : list (option string))
  (measure : list (option value)) (start_year : list (option string))
  (epoch_start epoch_stop : list (option Z)) : table :=
  match identifier, measure, start_year, epoch_start, epoch_stop with
  | u :: us, v :: vs, y :: ys, s :: ss, e :: es =>
      mkRow u v y s e :: from_arrays us vs ys ss es
  | _, _, _, _, _ => []
  end.

Definition sanitize_data
  (read_csv : list string -> csv_convert_options -> csv_outcome)
  (measure_data_type : string) : read_result table :=
  match get_csv_convert_options measure_data_type with
  | Raise e => RaisePython e
  | Ok convert_options =>
      match read_csv get_csv_read_options convert_options with
      | CsvInvalid e =>
          RaisePython (ValidationError "Error when reading dataset" [[Text e]])
      | CsvTable table =>
          let identifier :=
            map (fun r => option_map utf8_trim (raw_unit_id r)) table in
          let measure :=
            if negb (measure_data_type =? "STRING")
            then map raw_value table
            else map (fun r => option_map trim_value (raw_value r)) table in
          rbind (if measure_data_type =? "DATE"
                 then cast_value_int16 measure
                 else Read measure) (fun measure =>
          rbind (cast_int16 (map raw_start table)) (fun epoch_start =>
          rbind (cast_int16 (map raw_stop table)) (fun epoch_stop =>
          let start_year :=
            map (fun r => option_map (fun d => substring 0 4 (date_string d))
                            (raw_start r)) table in
          Read (from_arrays identifier measure start_year
                  epoch_start epoch_stop))))
      end
  end.

(** * Statements

    The predicates, reference checks and example tables the properties
    below are stated with. *)

Definition status_row_invalid (r : row) : Prop :=
  start_epoch_days r = None \/ stop_epoch_days r = None \/
  start_epoch_days r <> stop_epoch_days r.

Definition event_row_invalid (r : row) : Prop :=
  start_epoch_days r = None \/
  exists s e, start_epoch_days r = Some s /\ stop_epoch_days r = Some e /\
              (e <= s)%Z.

Definition value_row_valid (data_type : string) (r : row) : Prop :=
  exists v, value_ r = Some v /\
            (data_type = "STRING" -> v <> VString EmptyString).

Definition sentinel_only_rows : table :=
  [mkRow (Some "u1") (Some (VString "X9")) None None (Some 10%Z)].

(** The single global check: the count of distinct [unit_id] equals the
    row count. *)
Definition global_unique_identifiers (t : table) : Prop :=
  List.length (unique unit_id_eqb (map unit_id t)) = List.length t.

Definition same_bucket (a b : option string) : bool :=
  selected (equal_str (utf8_slice_codeunits a 1) (utf8_slice_codeunits b 1)).

Definition row_le (a b : row) : Prop :=
  start_leb (start_epoch_days a) (start_epoch_days b) = true.

(** Rows in ascending order of their starts: every row starts no later
    than every row after it. *)
Definition starts_ascending (l : list row) : Prop :=
  StronglySorted
    (fun a b => exists x y, start_epoch_days a = Some x /\
                            start_epoch_days b = Some y /\ (x <= y)%Z) l.

(** The intervals of one identifier, ordered by start, and what the scan
    answers on them. *)
Definition intervals_of (u : option string) (t : table) : list row :=
  sort_by_start (List.filter (fun r => unit_id_eqb (unit_id r) u) t).

Definition identifier_overlaps (t : table) (u : option string) : result bool :=
  find_overlap (map start_epoch_days (intervals_of u t))
               (map stop_epoch_days (intervals_of u t)).

(** Interval [i] is not the last one and either has a null stop or stops
    after interval [i + 1] starts. *)
Definition overlap_at (start_list stop_list : list (option Z)) (i : nat)
  : Prop :=
  S i < List.length start_list /\
  (nth_error stop_list i = Some None \/
   exists stop_i start_next,
     nth_error stop_list i = Some (Some stop_i) /\
     nth_error start_list (S i) = Some (Some start_next) /\
     (stop_i > start_next)%Z).

(** What the scan of one group answers, as the loop body reads it. *)
Definition no_overlap (t : table) (u : option string) : Prop :=
  identifier_overlaps t u = Ok false.

(** The unbatched check: every distinct identifier of the table is
    scanned on its own intervals. *)
Definition unbatched_check (t : table) : bool :=
  forallb (fun u => match identifier_overlaps t u with
                    | Ok false => true
                    | _ => false
                    end)
          (unique unit_id_eqb (map unit_id t)).

Definition is_some {A : Type} (c : option A) : bool :=
  match c with Some _ => true | None => false end.

(** The table holds the values the summary is computed from: for FIXED
    a stop, otherwise a start or a stop and, for STATUS, no null start. *)
Definition coverage_defined (t : table) (temporality_type : string) : bool :=
  if (temporality_type =? "FIXED")%string
  then existsb is_some (map stop_epoch_days t)
  else (existsb is_some (map start_epoch_days t)
        || existsb is_some (map stop_epoch_days t))
       && (if (temporality_type =? "STATUS")%string
           then forallb is_some (map start_epoch_days t)
           else true).

Definition int16_column (column : list (option Z)) : Prop :=
  Forall (fun c => int16_cell c = true) column.

(** A check of [p] on the [2 ^ k] integers from [lo] on. *)
Fixpoint check_range (p : Z -> bool) (k : nat) (lo : Z) : bool :=
  match k with
  | O => p lo
  | S k' => check_range p k' lo && check_range p k' (lo + 2 ^ Z.of_nat k')%Z
  end.

(** Ascending order on days, to state what the sorted strings decode. *)
Fixpoint insert_days (d : Z) (l : list Z) : list Z :=
  match l with
  | [] => [d]
  | d' :: l' => if (d <=? d')%Z then d :: l else d' :: insert_days d l'
  end.

Fixpoint sort_days (l : list Z) : list Z :=
  match l with
  | [] => []
  | d :: l' => insert_days d (sort_days l')
  end.

Definition decode_cell (c : option Z) : string :=
  match c with Some d => date_string d | None => EmptyString end.

Definition span (u : string) (start stop : option Z) : row :=
  mkRow (Some u) (Some (VLong 1)) None start stop.

(** Six EVENT rows without a start. *)
Definition six_open_rows : table :=
  map (fun u => span u None None) ["u1"; "u2"; "u3"; "u4"; "u5"; "u6"].

Definition empty_identifier_row : table := [span EmptyString None (Some 10%Z)].

(** Two identifiers; the intervals of A meet at day 20 and its last
    interval is open, those of B overlap. *)
Definition event_rows : table :=
  [span "A" (Some 20%Z) None; span "B" (Some 1%Z) (Some 50%Z);
   span "A" (Some 10%Z) (Some 20%Z); span "B" (Some 2%Z) (Some 60%Z)].

Definition fixed_rows : table :=
  [span "a1" None (Some 100%Z); span "a2" None (Some 200%Z);
   span "b1" None (Some 100%Z); span "a1" None (Some 300%Z)].

Definition status_rows : table :=
  [span "A" (Some 19723%Z) (Some 19723%Z);
   span "B" (Some 0%Z) (Some 0%Z);
   span "C" (Some 19723%Z) (Some 19723%Z);
   span "A" (Some (-1)%Z) (Some (-1)%Z)].

Definition fixed_without_stop : table := [span "u1" None None].

Definition null_start_rows : table :=
  [span "A" None (Some 5%Z); span "A" (Some 1%Z) (Some 2%Z)].

Definition status_with_null_start : table :=
  [span "A" (Some 0%Z) (Some 0%Z); span "B" None (Some 1%Z)].

Definition status_metadata : metadata :=
  mkMetadata (mkRevision None None None) "STATUS".

(** ** Further statements *)

Definition unit_id_row_valid (r : row) : Prop :=
  exists u, unit_id r = Some u /\ u <> EmptyString.

Definition fixed_row_valid (r : row) : Prop :=
  start_epoch_days r = None /\ stop_epoch_days r <> None.

Definition accumulated_row_valid (r : row) : Prop :=
  exists s e, start_epoch_days r = Some s /\ stop_epoch_days r = Some e /\
              (s < e)%Z.

(** The codes a value may take when a code list is supplied. *)
Definition permitted_codes (codes : list code_list_item)
  (sentinel_list : option (list code_list_item)) : list value :=
  map code codes ++
  match sentinel_list with
  | Some sentinels => map code sentinels
  | None => []
  end.

Definition code_row_valid (codes : list code_list_item)
  (sentinel_list : option (list code_list_item)) (r : row) : Prop :=
  exists v, value_ r = Some v /\ In v (permitted_codes codes sentinel_list).

(** A code list of strings and a value column of strings: the codes
    are of the type of the column, and [isin] compares them as they
    are. *)
Definition string_codes (items : list code_list_item) : Prop :=
  Forall (fun c => exists s, code c = VString s) items.

Definition string_sentinels (sentinel_list : option (list code_list_item))
  : Prop :=
  match sentinel_list with
  | Some sentinels => string_codes sentinels
  | None => True
  end.

Definition string_column (t : table) : Prop :=
  Forall (fun r => match value_ r with
                   | Some (VString _) | None => True
                   | Some _ => False
                   end) t.

Definition value_string (v : value) : option string :=
  match v with
  | VString s => Some s
  | _ => None
  end.

(** The strings a value may be when a code list is supplied. *)
Definition code_strings (codes : list code_list_item)
  (sentinel_list : option (list code_list_item)) : list string :=
  some_values (map value_string (permitted_codes codes sentinel_list)).

Definition coded_rows : table :=
  [mkRow (Some "u1") (Some (VString "A")) None None (Some 10%Z);
   mkRow (Some "u2") (Some (VString "X9")) None None (Some 10%Z)].

(** The rows of a STATUS table on one status date. *)
Definition rows_on (d : Z) (t : table) : list row :=
  List.filter (fun r => days_eqb (start_epoch_days r) (Some d)) t.

(** Interval [a] is closed and ends no later than [b] starts. *)
Definition ends_before (a b : row) : Prop :=
  exists e s, stop_epoch_days a = Some e /\ start_epoch_days b = Some s /\
              (e <= s)%Z.

(** Two intervals that do not overlap: one ends before the other starts. *)
Definition disjoint (a b : row) : Prop := ends_before a b \/ ends_before b a.

(** The rows of one identifier, in file order. *)
Definition rows_of (u : option string) (t : table) : list row :=
  List.filter (fun r => unit_id_eqb (unit_id r) u) t.

(** What the temporal-field rules of EVENT and ACCUMULATED both ask of
    a row: a start, and a stop, if any, strictly after it. *)
Definition interval_row (r : row) : Prop :=
  exists s, start_epoch_days r = Some s /\
            forall e, stop_epoch_days r = Some e -> (s < e)%Z.

(** Each interval of the list ends before the next one starts. *)
Fixpoint chained (l : list row) : Prop :=
  match l with
  | a :: (b :: _) as l' => ends_before a b /\ chained l'
  | _ => True
  end.

Definition status_row_valid (r : row) : Prop :=
  exists d, start_epoch_days r = Some d /\ stop_epoch_days r = Some d.

Definition known_temporality_type (temporality_type : string) : bool :=
  (temporality_type =? "FIXED") || (temporality_type =? "STATUS") ||
  (temporality_type =? "ACCUMULATED") || (temporality_type =? "EVENT").

(** The epoch-day cells of the table, both columns. *)
Definition day_cells (t : table) : list (option Z) :=
  map start_epoch_days t ++ map stop_epoch_days t.

Fixpoint spaces (n : nat) : string :=
  match n with
  | O => EmptyString
  | S n' => String " " (spaces n')
  end.

Definition first_char (s : string) : option ascii :=
  match s with
  | EmptyString => None
  | String c _ => Some c
  end.

Fixpoint last_char (s : string) : option ascii :=
  match s with
  | EmptyString => None
  | String c EmptyString => Some c
  | String _ s' => last_char s'
  end.

(** The canonical row of a row read from the file. *)
Definition sanitized_row (measure_data_type : string) (r : raw_row) : row :=
  mkRow (option_map utf8_trim (raw_unit_id r))
        (if measure_data_type =? "STRING"
         then option_map trim_value (raw_value r)
         else raw_value r)
        (option_map (fun d => substring 0 4 (date_string d)) (raw_start r))
        (raw_start r) (raw_stop r).

(** The day cells the reader casts to 16 bits: the value when the
    measure is a date, the start and the stop. *)
Definition cast_cells (measure_data_type : string) (raw : list raw_row)
  : list (option Z) :=
  (if measure_data_type =? "DATE"
   then map (fun r => value_days (raw_value r)) raw
   else []) ++ map raw_start raw ++ map raw_stop raw.

(** A file of three rows: identifiers with spaces around them, one of
    spaces alone. *)
Definition example_csv (_ : list string) (_ : csv_convert_options)
  : csv_outcome :=
  CsvTable
    [mkRaw (Some " A ") (Some (VString " x ")) (Some 0%Z) (Some 10%Z) None;
     mkRaw (Some "B") (Some (VString "y")) (Some 365%Z) None None;
     mkRaw (Some "   ") (Some (VString "z")) None (Some 19723%Z) None].

Definition event_summary : temporal_data :=
  mkTemporal "1970-01-02" "1970-03-02" None.

Definition unsorted_summary : temporal_data :=
  mkTemporal "1970-01-01" "2024-01-01"
    (Some ["2024-01-01"; "1970-01-01"; "2024-01-01"; "1969-12-31"]).

(** Ascending order of strings, as [list.sort()] leaves them. *)
Definition string_le (a b : string) : Prop := String.leb a b = true.

(** * Properties *)

(** ** Filtered reads *)

Lemma to_table_nonempty {C : Type} (t : table) (f : row -> option bool)
  (column : row -> C) :
  (0 <? List.length (to_table t f column))%nat =
  existsb (fun r => selected (f r)) t.
Proof.
  unfold to_table. rewrite length_map.
  induction t as [|r t IH]; simpl; [reflexivity|].
  destruct (selected (f r)); simpl; [reflexivity | exact IH].
Qed.

Lemma result_unit_cases (r : result unit) :
  r = Ok tt \/ exists e, r = Raise e.
Proof. destruct r as [[]|e]; [left | right; exists e]; reflexivity. Qed.

Lemma existsb_false_Forall {A : Type} (f : A -> bool) (l : list A) :
  existsb f l = false <-> Forall (fun x => f x = false) l.
Proof.
  induction l as [|x l IH]; simpl.
  - split; [constructor | reflexivity].
  - rewrite orb_false_iff, IH. split.
    + intros [H1 H2]. constructor; assumption.
    + intros H. inversion H; subst. split; assumption.
Qed.

(** ** Per-temporality field rules *)

Lemma status_row_invalid_filters (r : row) :
  status_row_invalid r <->
  selected (or_kleene (is_null (stop_epoch_days r))
                      (is_null (start_epoch_days r))) = true \/
  selected (not_equal_days (start_epoch_days r) (stop_epoch_days r)) = true.
Proof.
  unfold status_row_invalid.
  destruct (start_epoch_days r) as [s|], (stop_epoch_days r) as [e|]; simpl;
    try (split; [intros _; left; reflexivity | intros _; auto]; fail).
  destruct (Z.eqb_spec s e) as [->|Hne]; simpl.
  - split.
    + intros [H|[H|H]]; try discriminate. contradiction.
    + intros [H|H]; discriminate.
  - split; [intros _; right; reflexivity|].
    intros _. right; right. congruence.
Qed.

(** C8.  The STATUS temporal-field check raises exactly when some row
    has a null [start_epoch_days], a null [stop_epoch_days], or a start
    that differs from its stop; a table whose rows all carry two
    non-null, equal fields passes. *)
Theorem status_temporal_variables_check_fails_iff (t : table) :
  ((exists e, status_temporal_variables_check t = Raise e) <->
   Exists status_row_invalid t) /\
  (Forall (fun r => exists d, start_epoch_days r = Some d /\
                              stop_epoch_days r = Some d) t ->
   status_temporal_variables_check t = Ok tt).
Proof.
  assert (Hiff : (exists e, status_temporal_variables_check t = Raise e) <->
                 Exists status_row_invalid t).
  { unfold status_temporal_variables_check.
    rewrite !to_table_nonempty.
    rewrite Exists_exists.
    setoid_rewrite status_row_invalid_filters.
    destruct (existsb _ t) eqn:H1; cbn [bind].
    - split; [intros _ | intros _; eexists; reflexivity].
      apply existsb_exists in H1. destruct H1 as [r [Hin Hr]].
      exists r. auto.
    - destruct (existsb (fun r => selected (not_equal_days _ _)) t) eqn:H2.
      + split; [intros _ | intros _; eexists; reflexivity].
        apply existsb_exists in H2. destruct H2 as [r [Hin Hr]].
        exists r. auto.
      + split; [intros [e He]; discriminate|].
        intros [r [Hin [Hr|Hr]]].
        * rewrite existsb_false_Forall, Forall_forall in H1.
          pose proof (H1 r Hin) as H1r. cbv beta in H1r. congruence.
        * rewrite existsb_false_Forall, Forall_forall in H2.
          pose proof (H2 r Hin) as H2r. cbv beta in H2r. congruence. }
  split; [exact Hiff|].
  intros Hall.
  destruct (result_unit_cases (status_temporal_variables_check t))
    as [Hok|Hraise]; [exact Hok|].
  apply Hiff in Hraise. apply Exists_exists in Hraise.
  destruct Hraise as [r [Hin Hbad]].
  rewrite Forall_forall in Hall. destruct (Hall r Hin) as [d [Hs He]].
  unfold status_row_invalid in Hbad. rewrite Hs, He in Hbad.
  destruct Hbad as [H|[H|H]]; try discriminate. contradiction.
Qed.

Lemma event_row_invalid_filter (r : row) :
  event_row_invalid r <->
  selected (or_kleene (is_null (start_epoch_days r))
              (greater_equal_days (start_epoch_days r) (stop_epoch_days r)))
  = true.
Proof.
  unfold event_row_invalid.
  destruct (start_epoch_days r) as [s|], (stop_epoch_days r) as [e|]; simpl.
  - rewrite Z.geb_leb. destruct (Z.leb_spec e s) as [Hle|Hgt]; simpl.
    + split; [reflexivity|]. intros _. right. exists s, e. auto.
    + split; [|discriminate].
      intros [H|[s' [e' [Hs [He Hle]]]]]; [discriminate|].
      injection Hs as <-. injection He as <-. lia.
  - split; [|discriminate].
    intros [H|[s' [e' [_ [He _]]]]]; discriminate.
  - split; auto.
  - split; auto.
Qed.

(** C9.  The EVENT temporal-field check raises exactly when some row has
    a null [start_epoch_days], or a non-null [stop_epoch_days] that is
    not strictly greater than its start; rows with a start and a null
    stop pass. *)
Theorem event_temporal_variables_check_fails_iff (t : table) :
  ((exists e, event_temporal_variables_check t = Raise e) <->
   Exists event_row_invalid t) /\
  (Forall (fun r => start_epoch_days r <> None /\ stop_epoch_days r = None) t
   -> event_temporal_variables_check t = Ok tt).
Proof.
  assert (Hiff : (exists e, event_temporal_variables_check t = Raise e) <->
                 Exists event_row_invalid t).
  { unfold event_temporal_variables_check.
    rewrite to_table_nonempty, Exists_exists.
    setoid_rewrite event_row_invalid_filter.
    destruct (existsb _ t) eqn:H1.
    - split; [intros _ | intros _; eexists; reflexivity].
      apply existsb_exists in H1. exact H1.
    - split; [intros [e He]; discriminate|].
      intros Hex. apply existsb_exists in Hex. congruence. }
  split; [exact Hiff|].
  intros Hall.
  destruct (result_unit_cases (event_temporal_variables_check t))
    as [Hok|Hraise]; [exact Hok|].
  apply Hiff in Hraise. apply Exists_exists in Hraise.
  destruct Hraise as [r [Hin Hbad]].
  rewrite Forall_forall in Hall. destruct (Hall r Hin) as [Hs He].
  destruct Hbad as [H|[s [e [_ [He' _]]]]]; congruence.
Qed.

(** ** Value validity *)

Lemma value_eqb_eq (a b : value) : value_eqb a b = true <-> a = b.
Proof.
  destruct a, b; simpl; try (split; [discriminate | congruence]).
  - rewrite String.eqb_eq. split; congruence.
  - rewrite Z.eqb_eq. split; congruence.
  - rewrite Z.eqb_eq. split; congruence.
  - rewrite Z.eqb_eq. split; congruence.
Qed.

Lemma value_row_valid_filter (data_type : string) (r : row) :
  value_row_valid data_type r <->
  selected ((if data_type =? "STRING"
             then fun r => or_kleene (is_null (value_ r))
                             (equal_value (value_ r)
                                (Some (VString EmptyString)))
             else fun r => is_null (value_ r)) r) = false.
Proof.
  unfold value_row_valid.
  destruct (String.eqb_spec data_type "STRING") as [->|Hne];
    destruct (value_ r) as [v|]; simpl.
  - destruct (value_eqb v (VString "")) eqn:Hv; simpl.
    + apply value_eqb_eq in Hv. subst v. split; [|discriminate].
      intros [v [Hv Hne]]. injection Hv as <-. exfalso. now apply Hne.
    + split; [reflexivity|]. intros _. exists v. split; [reflexivity|].
      intros _ ->. simpl in Hv. discriminate.
  - split; [|discriminate]. intros [v [Hv _]]. discriminate.
  - split; [reflexivity|]. intros _. exists v. split; [reflexivity|].
    intros H. contradiction.
  - split; [|discriminate]. intros [v [Hv _]]. discriminate.
Qed.

(** C10.  With [code_list] absent or empty the value check does no
    membership test: it passes exactly when every value is non-null
    (and, for STRING, not the empty string), whatever [sentinel_list]
    holds. *)
Theorem valid_value_column_check_without_code_list (t : table)
  (data_type : string) (code_list sentinel_list : option (list code_list_item)) :
  code_list = None \/ code_list = Some [] ->
  (valid_value_column_check t data_type code_list sentinel_list = Ok tt <->
   Forall (value_row_valid data_type) t) /\
  valid_value_column_check t data_type code_list sentinel_list =
  valid_value_column_check t data_type code_list None.
Proof.
  intros Hcl.
  assert (Hshape : valid_value_column_check t data_type code_list sentinel_list
                   = if existsb (fun r => selected
                         ((if data_type =? "STRING"
                           then fun r => or_kleene (is_null (value_ r))
                                           (equal_value (value_ r)
                                              (Some (VString EmptyString)))
                           else fun r => is_null (value_ r)) r)) t
                     then Raise (ValueError [Text "valid_value_column_check"])
                     else Ok tt).
  { unfold valid_value_column_check. rewrite to_table_nonempty.
    destruct Hcl as [-> | ->]; destruct (existsb _ t); reflexivity. }
  split.
  - rewrite Hshape.
    destruct (existsb _ t) eqn:Hex.
    + split; [discriminate|]. intros Hall.
      apply existsb_exists in Hex. destruct Hex as [r [Hin Hsel]].
      rewrite Forall_forall in Hall.
      pose proof (proj1 (value_row_valid_filter data_type r) (Hall r Hin))
        as Hvalid.
      cbv beta in Hsel. congruence.
    + split; [|reflexivity]. intros _.
      rewrite existsb_false_Forall in Hex.
      revert Hex. apply Forall_impl. intros r Hr.
      now apply value_row_valid_filter.
  - unfold valid_value_column_check.
    destruct Hcl as [-> | ->]; reflexivity.
Qed.

Lemma valid_value_column_check_without_code_list_witness :
  (valid_value_column_check sentinel_only_rows "STRING" (Some [])
     (Some [mkCode (VString "S1") "sentinel"]) = Ok tt <->
   Forall (value_row_valid "STRING") sentinel_only_rows) /\
  valid_value_column_check sentinel_only_rows "STRING" (Some [])
    (Some [mkCode (VString "S1") "sentinel"]) =
  valid_value_column_check sentinel_only_rows "STRING" (Some []) None.
Proof.
  apply (valid_value_column_check_without_code_list sentinel_only_rows
           "STRING" (Some []) (Some [mkCode (VString "S1") "sentinel"])).
  right. reflexivity.
Defined.

(** ** Rule order of validate_dataset *)

Ltac name_outcomes o path mdt cl sl :=
  set (o := rule_outcome path mdt cl sl);
  change (valid_unit_id_check path) with (o ValidUnitId);
  change (valid_value_column_check path mdt cl sl) with (o ValidValueColumn);
  change (fixed_temporal_variables_check path)
    with (o FixedTemporalVariables);
  change (only_unique_identifiers_check path) with (o OnlyUniqueIdentifiers);
  change (status_temporal_variables_check path)
    with (o StatusTemporalVariables);
  change (status_uniquesness_check path) with (o StatusUniqueness);
  change (accumulated_temporal_variables_check path)
    with (o AccumulatedTemporalVariables);
  change (event_temporal_variables_check path)
    with (o EventTemporalVariables);
  change (no_overlapping_timespans_check path)
    with (o NoOverlappingTimespans);
  clearbody o.

Ltac run_rule o passed r :=
  let H := fresh "H" in
  destruct (o r) as [[]|?] eqn:H; cbn [app];
  [ | eexists; split; [reflexivity|];
      exists passed, r; split; [reflexivity|];
      split; [repeat constructor; assumption | assumption] ].

(** C5.  validate_dataset calls the rules in the order identifier
    validity, value validity, the temporal-field rule of the temporality
    type, then its uniqueness or overlap rule.  The rules it has called
    are a prefix of that order; when it raises, the exception is that of
    the last rule called, every rule before it passed and none after it
    was called; when it returns, every rule of the order was called and
    passed. *)
Theorem validate_dataset_rule_order (parquet_path : table)
  (measure_data_type : string)
  (code_list sentinel_list : option (list code_list_item))
  (temporality_type : string) :
  let outcome :=
    rule_outcome parquet_path measure_data_type code_list sentinel_list in
  let (log, res) :=
    validate_dataset parquet_path measure_data_type code_list sentinel_list
      temporality_type [] in
  exists not_called, rule_order temporality_type = log ++ not_called /\
    match res with
    | Ok _ => not_called = [] /\ Forall (fun r => outcome r = Ok tt) log
    | Raise e =>
        exists passed failing,
          log = passed ++ [failing] /\
          Forall (fun r => outcome r = Ok tt) passed /\
          outcome failing = Raise e
    end.
Proof.
  unfold validate_dataset, rule_order, tbind, call, tret.
  name_outcomes o parquet_path measure_data_type code_list sentinel_list.
  cbn zeta.
  run_rule o (@nil rule) ValidUnitId.
  run_rule o [ValidUnitId] ValidValueColumn.
  destruct (temporality_type =? "FIXED").
  { run_rule o [ValidUnitId; ValidValueColumn] FixedTemporalVariables.
    run_rule o [ValidUnitId; ValidValueColumn; FixedTemporalVariables]
      OnlyUniqueIdentifiers.
    exists []. repeat split; repeat constructor; assumption. }
  destruct (temporality_type =? "STATUS").
  { run_rule o [ValidUnitId; ValidValueColumn] StatusTemporalVariables.
    run_rule o [ValidUnitId; ValidValueColumn; StatusTemporalVariables]
      StatusUniqueness.
    exists []. repeat split; repeat constructor; assumption. }
  destruct (temporality_type =? "ACCUMULATED").
  { run_rule o [ValidUnitId; ValidValueColumn] AccumulatedTemporalVariables.
    run_rule o [ValidUnitId; ValidValueColumn; AccumulatedTemporalVariables]
      NoOverlappingTimespans.
    exists []. repeat split; repeat constructor; assumption. }
  destruct (temporality_type =? "EVENT").
  { run_rule o [ValidUnitId; ValidValueColumn] EventTemporalVariables.
    run_rule o [ValidUnitId; ValidValueColumn; EventTemporalVariables]
      NoOverlappingTimespans.
    exists []. repeat split; repeat constructor; assumption. }
  exists []. repeat split; repeat constructor; assumption.
Qed.

(** ** Distinct values *)

Section Unique.
Context {A : Type} (eqb : A -> A -> bool).
Hypothesis eqb_eq : forall a b, eqb a b = true <-> a = b.

Lemma eqb_same (a : A) : eqb a a = true.
Proof. now apply eqb_eq. Qed.

Lemma unique_In (x : A) (l : list A) : In x (unique eqb l) <-> In x l.
Proof.
  induction l as [|y l IH]; simpl; [tauto|].
  rewrite filter_In, IH. split.
  - intros [H|[H _]]; auto.
  - intros [H|H]; [auto|].
    destruct (eqb y x) eqn:E.
    + left. now apply eqb_eq.
    + right. auto.
Qed.

Lemma unique_NoDup (l : list A) : NoDup (unique eqb l).
Proof.
  induction l as [|y l IH]; simpl; constructor.
  - rewrite filter_In. intros [_ H]. rewrite eqb_same in H. discriminate.
  - now apply NoDup_filter.
Qed.

Lemma unique_length_le (l : list A) :
  List.length (unique eqb l) <= List.length l.
Proof.
  induction l as [|y l IH]; simpl; [lia|].
  pose proof (filter_length_le (fun z => negb (eqb y z)) (unique eqb l)).
  lia.
Qed.

Lemma unique_NoDup_id (l : list A) : NoDup l -> unique eqb l = l.
Proof.
  induction 1 as [|y l Hnotin Hnd IH]; simpl; [reflexivity|].
  rewrite IH. f_equal. apply forallb_filter_id.
  apply forallb_forall. intros z Hz.
  destruct (eqb y z) eqn:E; [|reflexivity].
  apply eqb_eq in E. subst z. contradiction.
Qed.

(** The count of distinct values equals the count of values exactly
    when no value repeats. *)
Lemma unique_length_NoDup (l : list A) :
  List.length (unique eqb l) = List.length l <-> NoDup l.
Proof.
  split.
  - induction l as [|y l IH]; simpl; intros Hlen; constructor.
    + pose proof (filter_length_le (fun z => negb (eqb y z)) (unique eqb l)).
      pose proof (unique_length_le l).
      assert (Hf : List.length (List.filter (fun z => negb (eqb y z))
                                  (unique eqb l))
                   = List.length (unique eqb l)) by lia.
      apply filter_length_forallb in Hf.
      rewrite forallb_forall in Hf.
      intros Hin. apply unique_In in Hin. apply Hf in Hin.
      rewrite eqb_same in Hin. discriminate.
    + apply IH.
      pose proof (filter_length_le (fun z => negb (eqb y z)) (unique eqb l)).
      pose proof (unique_length_le l). lia.
  - intros Hnd. now rewrite unique_NoDup_id.
Qed.

(** A list has no repetition as soon as none of its groups has, for
    a grouping [same] that puts each element in a group of its own. *)
Lemma NoDup_by_groups (same : A -> A -> bool) (l : list A) :
  (forall x, In x l -> same x x = true) ->
  (forall x, In x l -> NoDup (List.filter (fun y => same y x) l)) ->
  NoDup l.
Proof.
  induction l as [|a l IH]; intros Hrefl Hgroups; constructor.
  - intros Hin.
    pose proof (Hgroups a (or_introl eq_refl)) as Hnd.
    simpl in Hnd. rewrite (Hrefl a (or_introl eq_refl)) in Hnd.
    inversion Hnd as [|? ? Hnotin _]; subst.
    apply Hnotin. apply filter_In. split; [exact Hin|].
    apply Hrefl. now left.
  - apply IH.
    + intros x Hx. apply Hrefl. now right.
    + intros x Hx. pose proof (Hgroups x (or_intror Hx)) as Hnd.
      simpl in Hnd. destruct (same a x); [|exact Hnd].
      now inversion Hnd.
Qed.
End Unique.

Lemma option_eqb_eq {A : Type} (eqb : A -> A -> bool) :
  (forall a b, eqb a b = true <-> a = b) ->
  forall a b, option_eqb eqb a b = true <-> a = b.
Proof.
  intros H [a|] [b|]; simpl; try (split; [discriminate | congruence]).
  - rewrite H. split; congruence.
  - split; reflexivity.
Qed.

Lemma unit_id_eqb_eq (a b : option string) : unit_id_eqb a b = true <-> a = b.
Proof. apply option_eqb_eq. apply String.eqb_eq. Qed.

Lemma days_eqb_eq (a b : option Z) : days_eqb a b = true <-> a = b.
Proof. apply option_eqb_eq. apply Z.eqb_eq. Qed.

Lemma for_each_Ok {A : Type} (l : list A) (body : A -> result unit) :
  for_each l body = Ok tt <-> Forall (fun x => body x = Ok tt) l.
Proof.
  induction l as [|x l IH]; simpl.
  - split; [constructor | reflexivity].
  - destruct (body x) as [[]|e] eqn:E; simpl.
    + rewrite IH. split.
      * intros H. constructor; assumption.
      * intros H. now inversion H.
    + split; [discriminate|]. intros H. inversion H; congruence.
Qed.

(** ** Bucketed uniqueness *)

Lemma same_bucket_refl (a : option string) : a <> None -> same_bucket a a = true.
Proof.
  destruct a as [s|]; [|contradiction]. intros _.
  unfold same_bucket. simpl. now rewrite String.eqb_refl.
Qed.

Lemma bucket_table_identifiers (ids : list (option string))
  (b : option string) :
  map snd
    (List.filter (fun r => selected (equal_str (fst r) b))
       (map (fun u => (utf8_slice_codeunits u 1, u)) ids)) =
  List.filter (fun u => selected (equal_str (utf8_slice_codeunits u 1) b)) ids.
Proof.
  induction ids as [|u ids IH]; simpl; [reflexivity|].
  destruct (selected _); simpl; now rewrite IH.
Qed.

Lemma bucket_table_length (ids : list (option string)) (b : option string) :
  List.length
    (List.filter (fun r => selected (equal_str (fst r) b))
       (map (fun u => (utf8_slice_codeunits u 1, u)) ids)) =
  List.length
    (List.filter (fun u => selected (equal_str (utf8_slice_codeunits u 1) b))
       ids).
Proof. rewrite <- bucket_table_identifiers. now rewrite length_map. Qed.

(** C4.  On a table whose identifiers are non-null, the check that
    buckets identifiers by their first character and compares each
    bucket's distinct count with its row count passes exactly when the
    single global comparison of distinct count and row count does. *)
Theorem only_unique_identifiers_check_global (t : table) :
  Forall (fun r => unit_id r <> None) t ->
  (only_unique_identifiers_check t = Ok tt <-> global_unique_identifiers t).
Proof.
  intros Hnonnull.
  unfold only_unique_identifiers_check, global_unique_identifiers, to_table.
  rewrite filter_true.
  set (ids := map unit_id t).
  assert (Hids : forall u, In u ids -> u <> None).
  { intros u Hu. apply in_map_iff in Hu. destruct Hu as [r [<- Hr]].
    rewrite Forall_forall in Hnonnull. now apply Hnonnull. }
  replace (List.length t) with (List.length ids)
    by (unfold ids; apply length_map).
  rewrite (unique_length_NoDup _ unit_id_eqb_eq).
  rewrite for_each_Ok, Forall_forall.
  split.
  - intros Hbuckets.
    apply (NoDup_by_groups same_bucket).
    + intros u Hu. apply same_bucket_refl. now apply Hids.
    + intros u Hu.
      specialize (Hbuckets (utf8_slice_codeunits u 1)).
      rewrite bucket_table_identifiers, bucket_table_length in Hbuckets.
      assert (Hin : In (utf8_slice_codeunits u 1)
                      (unique unit_id_eqb
                         (map fst (map (fun u0 => (utf8_slice_codeunits u0 1, u0))
                                     ids)))).
      { apply (unique_In _ unit_id_eqb_eq). rewrite map_map. simpl.
        apply in_map_iff. exists u. auto. }
      specialize (Hbuckets Hin).
      destruct (Nat.eqb_spec
                  (List.length (unique unit_id_eqb
                     (List.filter (fun u0 => selected
                        (equal_str (utf8_slice_codeunits u0 1)
                           (utf8_slice_codeunits u 1))) ids)))
                  (List.length
                     (List.filter (fun u0 => selected
                        (equal_str (utf8_slice_codeunits u0 1)
                           (utf8_slice_codeunits u 1))) ids)))
        as [Heq|Hne]; [|discriminate].
      apply (unique_length_NoDup _ unit_id_eqb_eq) in Heq. exact Heq.
  - intros Hnd b _.
    rewrite bucket_table_identifiers, bucket_table_length.
    rewrite (proj2 (unique_length_NoDup _ unit_id_eqb_eq _)).
    + now rewrite Nat.eqb_refl.
    + now apply NoDup_filter.
Qed.

(** ** The stable sort on start *)

Lemma start_leb_total (a b : option Z) :
  start_leb a b = false -> start_leb b a = true.
Proof.
  destruct a as [x|], b as [y|]; simpl; try discriminate; try reflexivity.
  rewrite Z.leb_gt, Z.leb_le. lia.
Qed.

Lemma start_leb_trans (a b c : option Z) :
  start_leb a b = true -> start_leb b c = true -> start_leb a c = true.
Proof.
  destruct a as [x|], b as [y|], c as [z|]; simpl;
    try discriminate; try reflexivity.
  rewrite !Z.leb_le. lia.
Qed.

Lemma insert_by_start_In (y : row) (l : list row) (x : row) :
  In x (insert_by_start y l) <-> x = y \/ In x l.
Proof.
  induction l as [|z l IH]; simpl.
  - split; [intros [<-|[]]; now left | intros [->|[]]; now left].
  - destruct (start_leb _ _); simpl.
    + split; [intros [<-|H]; auto | intros [->|H]; auto].
    + rewrite IH. split.
      * intros [<-|[->|H]]; auto.
      * intros [->|[<-|H]]; auto.
Qed.

Lemma sort_by_start_In (l : list row) (x : row) :
  In x (sort_by_start l) <-> In x l.
Proof.
  induction l as [|y l IH]; simpl; [tauto|].
  rewrite insert_by_start_In, IH. split; intros [H|H]; auto.
Qed.

Lemma insert_by_start_sorted (y : row) (l : list row) :
  StronglySorted row_le l -> StronglySorted row_le (insert_by_start y l).
Proof.
  induction 1 as [|z l Hsorted IH Hall]; simpl.
  - constructor; constructor.
  - destruct (start_leb (start_epoch_days y) (start_epoch_days z)) eqn:E.
    + constructor; [constructor; assumption|].
      constructor; [exact E|].
      revert Hall. apply Forall_impl. intros r Hr.
      unfold row_le in *. eapply start_leb_trans; eassumption.
    + constructor; [exact IH|].
      apply Forall_forall. intros r Hr.
      apply insert_by_start_In in Hr. destruct Hr as [->|Hr].
      * now apply start_leb_total.
      * rewrite Forall_forall in Hall. now apply Hall.
Qed.

Lemma sort_by_start_sorted (l : list row) :
  StronglySorted row_le (sort_by_start l).
Proof.
  induction l as [|y l IH]; simpl; [constructor|].
  now apply insert_by_start_sorted.
Qed.

Lemma insert_by_start_least (y : row) (l : list row) :
  Forall (row_le y) l -> insert_by_start y l = y :: l.
Proof.
  destruct 1 as [|z l Hz _]; simpl; [reflexivity|].
  unfold row_le in Hz. now rewrite Hz.
Qed.

Lemma filter_insert_by_start (p : row -> bool) (y : row) (l : list row) :
  StronglySorted row_le l ->
  List.filter p (insert_by_start y l) =
  if p y then insert_by_start y (List.filter p l) else List.filter p l.
Proof.
  induction 1 as [|z l Hsorted IH Hall]; simpl.
  - destruct (p y); reflexivity.
  - destruct (start_leb (start_epoch_days y) (start_epoch_days z)) eqn:E.
    + simpl. destruct (p y) eqn:Hy; [|reflexivity].
      destruct (p z) eqn:Hz; simpl.
      * now rewrite E.
      * symmetry. rewrite insert_by_start_least; [reflexivity|].
        apply Forall_forall. intros r Hr. apply filter_In in Hr.
        rewrite Forall_forall in Hall. unfold row_le in *.
        eapply start_leb_trans; [exact E|]. now apply Hall.
    + simpl. rewrite IH.
      destruct (p z) eqn:Hz, (p y) eqn:Hy; simpl; try reflexivity.
      now rewrite E.
Qed.

(** Selecting rows commutes with the stable sort. *)
Lemma filter_sort_by_start (p : row -> bool) (l : list row) :
  List.filter p (sort_by_start l) = sort_by_start (List.filter p l).
Proof.
  induction l as [|y l IH]; simpl; [reflexivity|].
  rewrite filter_insert_by_start by apply sort_by_start_sorted.
  rewrite IH. destruct (p y); reflexivity.
Qed.

Lemma insert_by_start_Permutation (r : row) (l : list row) :
  Permutation (insert_by_start r l) (r :: l).
Proof.
  induction l as [|a l IH]; simpl; [reflexivity|].
  destruct (start_leb _ _); [reflexivity|].
  rewrite IH. apply perm_swap.
Qed.

Lemma sort_by_start_Permutation (l : list row) :
  Permutation (sort_by_start l) l.
Proof.
  induction l as [|a l IH]; simpl; [reflexivity|].
  rewrite insert_by_start_Permutation. now apply perm_skip.
Qed.

Lemma sort_by_start_ascending (l : list row) :
  Forall (fun r => start_epoch_days r <> None) l ->
  starts_ascending (sort_by_start l).
Proof.
  intros Hstarts.
  assert (Hsorted : Forall (fun r => start_epoch_days r <> None)
                      (sort_by_start l)).
  { apply Forall_forall. intros r Hr.
    apply (proj1 (sort_by_start_In _ _)) in Hr.
    rewrite Forall_forall in Hstarts. now apply Hstarts. }
  pose proof (sort_by_start_sorted l) as H. unfold starts_ascending.
  induction H as [|a m Hm IH Hall]; constructor.
  - apply IH. now inversion Hsorted.
  - inversion Hsorted as [|? ? Ha Hrest]; subst.
    rewrite Forall_forall in *. intros b Hb.
    pose proof (Hall b Hb) as Hle. pose proof (Hrest b Hb) as Hnb.
    unfold row_le in Hle.
    destruct (start_epoch_days a) as [x|]; [|contradiction].
    destruct (start_epoch_days b) as [y|]; [|contradiction].
    exists x, y. repeat split. now apply Z.leb_le.
Qed.

(** ** Overlap scan of one identifier *)

Lemma find_overlap_loop_spec (start_list stop_list : list (option Z))
  (indices : list nat) :
  List.length stop_list = List.length start_list ->
  Forall (fun c => c <> None) start_list ->
  (forall i, In i indices -> S i < List.length start_list) ->
  exists b, find_overlap_loop start_list stop_list indices = Ok b /\
            (b = true <->
             exists i, In i indices /\ overlap_at start_list stop_list i).
Proof.
  intros Hlen Hstarts.
  induction indices as [|i rest IH]; intros Hrange; simpl.
  - exists false. split; [reflexivity|].
    split; [discriminate | intros [i [[] _]]].
  - assert (Hi : S i < List.length start_list) by (apply Hrange; now left).
    destruct (nth_error stop_list i) as [c|] eqn:Hstop.
    2: { apply nth_error_None in Hstop. lia. }
    destruct c as [stop_i|].
    2: { exists true. split; [reflexivity|]. split; [|reflexivity].
         intros _. exists i. split; [now left|]. split; auto. }
    rewrite Nat.add_1_r.
    destruct (nth_error start_list (S i)) as [c|] eqn:Hstart.
    2: { apply nth_error_None in Hstart. lia. }
    destruct c as [start_next|].
    2: { apply nth_error_In in Hstart. rewrite Forall_forall in Hstarts.
         now apply Hstarts in Hstart. }
    destruct (Z.gtb_spec stop_i start_next) as [Hgt|Hle].
    + exists true. split; [reflexivity|]. split; [|reflexivity].
      intros _. exists i. split; [now left|]. split; [exact Hi|].
      right. exists stop_i, start_next. repeat split; auto. lia.
    + destruct IH as [b [Hb Hiff]].
      { intros j Hj. apply Hrange. now right. }
      exists b. split; [exact Hb|]. rewrite Hiff. split.
      * intros [j [Hj Hov]]. exists j. split; [now right | exact Hov].
      * intros [j [[<-|Hj] Hov]]; [|exists j; auto].
        exfalso. destruct Hov as [_ [Hnull|[e [s [He [Hs Hgt]]]]]].
        -- congruence.
        -- rewrite Hstop in He. rewrite Hstart in Hs.
           injection He as <-. injection Hs as <-. lia.
Qed.

Lemma find_overlap_spec (start_list stop_list : list (option Z)) :
  List.length stop_list = List.length start_list ->
  Forall (fun c => c <> None) start_list ->
  exists b, find_overlap start_list stop_list = Ok b /\
            (b = true <-> exists i, overlap_at start_list stop_list i).
Proof.
  intros Hlen Hstarts. unfold find_overlap.
  destruct (find_overlap_loop_spec start_list stop_list
              (seq 0 (List.length start_list - 1)) Hlen Hstarts)
    as [b [Hb Hiff]].
  { intros i Hi. apply in_seq in Hi. lia. }
  exists b. split; [exact Hb|]. rewrite Hiff. split.
  - intros [i [_ Hov]]. exists i. exact Hov.
  - intros [i Hov]. exists i. split; [|exact Hov].
    apply in_seq. destruct Hov as [Hi _]. lia.
Qed.

Lemma identifier_overlaps_spec (t : table) (u : option string) :
  Forall (fun r => start_epoch_days r <> None) t ->
  exists b, identifier_overlaps t u = Ok b /\
    (b = true <->
     exists i, overlap_at (map start_epoch_days (intervals_of u t))
                          (map stop_epoch_days (intervals_of u t)) i).
Proof.
  intros Hstarts. unfold identifier_overlaps.
  apply find_overlap_spec.
  - now rewrite !length_map.
  - apply Forall_forall. intros c Hc.
    apply in_map_iff in Hc. destruct Hc as [r [<- Hr]].
    unfold intervals_of in Hr.
    apply (proj1 (sort_by_start_In _ _)) in Hr. apply filter_In in Hr.
    rewrite Forall_forall in Hstarts. now apply Hstarts.
Qed.

(** The overlap rule runs after the temporal-field rule of EVENT or of
    ACCUMULATED has passed, and then no start is null. *)
Lemma temporal_rule_starts (t : table) :
  event_temporal_variables_check t = Ok tt \/
  accumulated_temporal_variables_check t = Ok tt ->
  Forall (fun r => start_epoch_days r <> None) t.
Proof.
  unfold event_temporal_variables_check, accumulated_temporal_variables_check.
  rewrite !to_table_nonempty.
  intros [H|H];
    (destruct (existsb _ t) eqn:Hex; [discriminate|]);
    rewrite existsb_false_Forall in Hex;
    revert Hex; apply Forall_impl; intros r Hr Hnull;
    rewrite Hnull in Hr; discriminate.
Qed.

(** ** Batches of identifiers *)

Lemma is_in_In (c : option string) (value_set : list (option string)) :
  selected (is_in String.eqb c value_set) = true <-> In c value_set.
Proof.
  unfold is_in, selected.
  change (fun v : option string =>
            match c, v with
            | Some x, Some y => (x =? y)%string
            | None, None => true
            | _, _ => false
            end) with (unit_id_eqb c).
  destruct (existsb (unit_id_eqb c) value_set) eqn:E.
  - split; [intros _ | reflexivity].
    apply existsb_exists in E. destruct E as [v [Hv Heq]].
    apply unit_id_eqb_eq in Heq. now subst.
  - split; [discriminate|]. intros Hin.
    rewrite existsb_false_Forall, Forall_forall in E.
    pose proof (E c Hin) as Hc. cbv beta in Hc.
    rewrite (proj2 (unit_id_eqb_eq c c) eq_refl) in Hc. discriminate.
Qed.

Lemma In_firstn_skipn {A : Type} (x : A) (n m : nat) (l : list A) :
  In x (firstn n (skipn m l)) -> In x l.
Proof.
  intros H.
  rewrite <- (firstn_skipn m l). apply in_or_app. right.
  rewrite <- (firstn_skipn n (skipn m l)). apply in_or_app. now left.
Qed.

(** The batches cover the identifiers: an identifier is in some batch
    exactly when it is in the list that was cut. *)
Lemma batch_cover {A : Type} (l : list A) (batch_size : nat) :
  0 < batch_size ->
  exists batches, batch l batch_size = Ok batches /\
    forall x, (exists b, In b batches /\ In x b) <-> In x l.
Proof.
  intros Hpos. unfold batch, range_step.
  destruct batch_size as [|n]; [lia|].
  set (bs := S n) in *. cbn [bind].
  eexists. split; [reflexivity|].
  intros x. split.
  - intros [b [Hb Hx]].
    apply in_map_iff in Hb. destruct Hb as [index [<- _]].
    now apply In_firstn_skipn in Hx.
  - intros Hx. apply In_nth_error in Hx. destruct Hx as [i Hi].
    assert (Hlt : i < List.length l).
    { apply nth_error_Some. congruence. }
    exists (firstn bs (skipn (i / bs * bs) l)). split.
    + apply in_map_iff. exists (i / bs * bs). split; [reflexivity|].
      apply in_map_iff. exists (i / bs). split; [reflexivity|].
      apply in_seq. split; [lia|]. rewrite Nat.add_0_l.
      apply Nat.Div0.div_lt_upper_bound.
      pose proof (Nat.div_mod_eq (List.length l + bs - 1) bs) as Hdm.
      pose proof (Nat.mod_upper_bound (List.length l + bs - 1) bs ltac:(lia)).
      lia.
    + apply (nth_error_In _ (i mod bs)).
      rewrite nth_error_firstn.
      pose proof (Nat.mod_upper_bound i bs ltac:(lia)) as Hmod.
      apply Nat.ltb_lt in Hmod. rewrite Hmod.
      rewrite nth_error_skipn.
      replace (i / bs * bs + i mod bs) with i; [exact Hi|].
      pose proof (Nat.div_mod_eq i bs). lia.
Qed.

(** ** Overlap detection, batch by batch *)

Lemma filter_identifier_in_batch (u : option string)
  (identifier_batch : list (option string)) (t : table) :
  In u identifier_batch ->
  List.filter (fun r => unit_id_eqb (unit_id r) u)
    (List.filter
       (fun r => selected (is_in String.eqb (unit_id r) identifier_batch)) t)
  = List.filter (fun r => unit_id_eqb (unit_id r) u) t.
Proof.
  intros Hin. induction t as [|r t IH]; [reflexivity|].
  cbn [List.filter].
  destruct (selected (is_in String.eqb (unit_id r) identifier_batch)) eqn:E;
    cbn [List.filter]; rewrite IH; [reflexivity|].
  destruct (unit_id_eqb (unit_id r) u) eqn:Eu; [|reflexivity].
  apply unit_id_eqb_eq in Eu. rewrite Eu in E.
  apply is_in_In in Hin. congruence.
Qed.

Lemma BATCH_SIZE_positive : 0 < BATCH_SIZE.
Proof. unfold BATCH_SIZE. lia. Qed.

Lemma batch_group_keys (t : table) (identifier_batch : list (option string))
  (u : option string) :
  In u (unique unit_id_eqb
          (map unit_id
             (sort_by_start
                (List.filter
                   (fun r => selected
                               (is_in String.eqb (unit_id r) identifier_batch))
                   t)))) <->
  In u identifier_batch /\ In u (map unit_id t).
Proof.
  rewrite (unique_In _ unit_id_eqb_eq), !in_map_iff. split.
  - intros [r [<- Hr]]. apply (proj1 (sort_by_start_In _ _)) in Hr.
    apply filter_In in Hr. destruct Hr as [Hr Hsel].
    apply (proj1 (is_in_In _ _)) in Hsel. split; [exact Hsel|].
    exists r. auto.
  - intros [Hb [r [<- Hr]]]. exists r. split; [reflexivity|].
    apply sort_by_start_In. apply filter_In.
    split; [exact Hr|]. now apply is_in_In.
Qed.

Lemma batch_group_rows (t : table) (identifier_batch : list (option string))
  (u : option string) :
  In u identifier_batch ->
  List.filter (fun r => unit_id_eqb (unit_id r) u)
    (sort_by_start
       (List.filter
          (fun r => selected (is_in String.eqb (unit_id r) identifier_batch))
          t))
  = intervals_of u t.
Proof.
  intros Hu. rewrite filter_sort_by_start. unfold intervals_of.
  now rewrite filter_identifier_in_batch.
Qed.

Lemma for_each_Raise {A : Type} (l : list A) (body : A -> result unit)
  (e : exn) :
  for_each l body = Raise e -> exists x, In x l /\ body x = Raise e.
Proof.
  induction l as [|x l IH]; simpl; [discriminate|].
  destruct (body x) as [[]|e'] eqn:E; simpl.
  - intros H. destruct (IH H) as [y [Hy Hbody]]. exists y. auto.
  - intros H. injection H as <-. exists x. auto.
Qed.

Lemma batch_groups_Ok (t : table) (identifier_batch : list (option string)) :
  for_each
    (group_by_unit_id
       (sort_by_start
          (List.filter
             (fun r => selected (is_in String.eqb (unit_id r) identifier_batch))
             t)))
    (fun spans =>
       overlap <- find_overlap (start_epoch_days_list spans)
                               (stop_epoch_days_list spans) ;;
       if overlap : bool then Raise (overlap_error (spans_unit_id spans))
       else Ok tt) = Ok tt
  <->
  forall u, In u identifier_batch -> In u (map unit_id t) -> no_overlap t u.
Proof.
  rewrite for_each_Ok, Forall_forall.
  unfold group_by_unit_id. split.
  - intros Hall u Hb Ht.
    assert (Hin : In u (unique unit_id_eqb (map unit_id (sort_by_start
              (List.filter (fun r => selected
                 (is_in String.eqb (unit_id r) identifier_batch)) t)))))
      by (apply batch_group_keys; auto).
    pose proof (Hall _ (in_map _ _ _ Hin)) as Hbody.
    cbn [start_epoch_days_list stop_epoch_days_list spans_unit_id] in Hbody.
    rewrite (batch_group_rows t identifier_batch u Hb) in Hbody.
    unfold no_overlap, identifier_overlaps.
    destruct (find_overlap _ _) as [[|]|e]; simpl in Hbody; congruence.
  - intros Hall spans Hspans.
    apply in_map_iff in Hspans. destruct Hspans as [u [<- Hu]].
    apply (proj1 (batch_group_keys _ _ _)) in Hu. destruct Hu as [Hb Ht].
    cbn [start_epoch_days_list stop_epoch_days_list spans_unit_id].
    rewrite (batch_group_rows t identifier_batch u Hb).
    pose proof (Hall u Hb Ht) as Hno.
    unfold no_overlap, identifier_overlaps in Hno. now rewrite Hno.
Qed.

(** When the scan of a batch raises, it raises for an identifier of the
    batch: the exception of its scan, or the overlap error that names
    it. *)
Lemma batch_groups_Raise (t : table) (identifier_batch : list (option string))
  (e : exn) :
  for_each
    (group_by_unit_id
       (sort_by_start
          (List.filter
             (fun r => selected (is_in String.eqb (unit_id r) identifier_batch))
             t)))
    (fun spans =>
       overlap <- find_overlap (start_epoch_days_list spans)
                               (stop_epoch_days_list spans) ;;
       if overlap : bool then Raise (overlap_error (spans_unit_id spans))
       else Ok tt) = Raise e ->
  exists u, In u (map unit_id t) /\
    (identifier_overlaps t u = Raise e \/
     (identifier_overlaps t u = Ok true /\ e = overlap_error u)).
Proof.
  intros H. apply for_each_Raise in H. destruct H as [spans [Hspans Hbody]].
  unfold group_by_unit_id in Hspans.
  apply in_map_iff in Hspans. destruct Hspans as [u [<- Hu]].
  apply (proj1 (batch_group_keys _ _ _)) in Hu. destruct Hu as [Hb Ht].
  cbn [start_epoch_days_list stop_epoch_days_list spans_unit_id] in Hbody.
  rewrite (batch_group_rows t identifier_batch u Hb) in Hbody.
  exists u. split; [exact Ht|]. unfold identifier_overlaps.
  destruct (find_overlap _ _) as [[|]|e']; simpl in Hbody.
  - right. split; [reflexivity | congruence].
  - discriminate.
  - left. congruence.
Qed.

Lemma no_overlapping_timespans_check_with_Ok (batch_size : nat) (t : table) :
  0 < batch_size ->
  (no_overlapping_timespans_check_with batch_size t = Ok tt <->
   forall u, In u (map unit_id t) -> no_overlap t u).
Proof.
  intros Hpos. unfold no_overlapping_timespans_check_with, to_table.
  rewrite filter_true.
  destruct (batch_cover (unique unit_id_eqb (map unit_id t)) batch_size Hpos)
    as [batches [Hbatches Hcover]].
  rewrite Hbatches. cbn [bind].
  rewrite for_each_Ok, Forall_forall.
  setoid_rewrite batch_groups_Ok.
  split.
  - intros Hall u Hu.
    assert (Hin : In u (unique unit_id_eqb (map unit_id t)))
      by now apply (unique_In _ unit_id_eqb_eq).
    apply Hcover in Hin. destruct Hin as [b [Hb Hub]].
    now apply (Hall b Hb u Hub).
  - intros Hall b Hb u Hub Hu. now apply Hall.
Qed.

Lemma no_overlapping_timespans_check_with_Raise (batch_size : nat)
  (t : table) (e : exn) :
  0 < batch_size ->
  no_overlapping_timespans_check_with batch_size t = Raise e ->
  exists u, In u (map unit_id t) /\
    (identifier_overlaps t u = Raise e \/
     (identifier_overlaps t u = Ok true /\ e = overlap_error u)).
Proof.
  intros Hpos. unfold no_overlapping_timespans_check_with, to_table.
  rewrite filter_true.
  destruct (batch_cover (unique unit_id_eqb (map unit_id t)) batch_size Hpos)
    as [batches [Hbatches _]].
  rewrite Hbatches. cbn [bind]. intros H.
  apply for_each_Raise in H. destruct H as [identifier_batch [_ H]].
  now apply batch_groups_Raise in H.
Qed.

(** C2, as amended.  On a table without a null start, the intervals
    of an identifier that the scan reads are the rows of the
    identifier rearranged in ascending start order; the scan reports an
    overlap exactly when some interval that is not the last has a null
    stop or a stop strictly greater than the next start, and reports
    none otherwise.  The check passes exactly when no identifier has
    such an interval, and when it raises it names an identifier that
    has one.  A stop equal to the next start is no overlap, and a null
    stop on the last interval alone is none either. *)
Theorem find_overlap_adjacent_pairs (t : table) :
  Forall (fun r => start_epoch_days r <> None) t ->
  let overlapping u :=
    exists i, overlap_at (map start_epoch_days (intervals_of u t))
                         (map stop_epoch_days (intervals_of u t)) i in
  (forall u, Permutation (intervals_of u t) (rows_of u t) /\
             starts_ascending (intervals_of u t)) /\
  (forall u, identifier_overlaps t u = Ok true <-> overlapping u) /\
  (forall u, identifier_overlaps t u = Ok false <-> ~ overlapping u) /\
  (no_overlapping_timespans_check t = Ok tt <->
   forall u, In u (map unit_id t) -> ~ overlapping u) /\
  (forall e, no_overlapping_timespans_check t = Raise e ->
             exists u, In u (map unit_id t) /\ overlapping u /\
                       e = overlap_error u) /\
  find_overlap [Some 10; Some 20]%Z [Some 20; Some 30]%Z = Ok false /\
  find_overlap [Some 10; Some 20]%Z [Some 20; None]%Z = Ok false /\
  find_overlap [Some 10; Some 20]%Z [None; Some 30]%Z = Ok true /\
  find_overlap [Some 10; Some 15]%Z [Some 20; Some 25]%Z = Ok true.
Proof.
  intros Hstarts overlapping.
  assert (Htrue : forall u, identifier_overlaps t u = Ok true <-> overlapping u).
  { intros u. destruct (identifier_overlaps_spec t u Hstarts) as [b [Hb Hiff]].
    rewrite Hb. unfold overlapping. rewrite <- Hiff. split; congruence. }
  assert (Hfalse : forall u,
             identifier_overlaps t u = Ok false <-> ~ overlapping u).
  { intros u. destruct (identifier_overlaps_spec t u Hstarts) as [b [Hb Hiff]].
    rewrite Hb. unfold overlapping. rewrite <- Hiff.
    destruct b; split; congruence. }
  split.
  { intros u. unfold intervals_of, rows_of. split.
    - apply sort_by_start_Permutation.
    - apply sort_by_start_ascending.
      apply Forall_forall. intros r Hr. apply filter_In in Hr.
      rewrite Forall_forall in Hstarts. now apply Hstarts. }
  split; [exact Htrue|]. split; [exact Hfalse|]. split; [|split].
  - unfold no_overlapping_timespans_check.
    rewrite (no_overlapping_timespans_check_with_Ok _ _ BATCH_SIZE_positive).
    unfold no_overlap. split; intros H u Hu; apply Hfalse; now apply H.
  - intros e He. unfold no_overlapping_timespans_check in He.
    apply (no_overlapping_timespans_check_with_Raise _ _ _ BATCH_SIZE_positive)
      in He.
    destruct He as [u [Hu [Hraise|[Hover ->]]]].
    + destruct (identifier_overlaps_spec t u Hstarts) as [b [Hb _]].
      congruence.
    + exists u. split; [exact Hu|]. split; [now apply Htrue | reflexivity].
  - repeat split; reflexivity.
Qed.

Lemma passes_Ok (r : result unit) : passes r = true <-> r = Ok tt.
Proof. destruct r as [[]|e]; simpl; split; congruence. Qed.

Lemma unbatched_check_true (t : table) :
  unbatched_check t = true <->
  forall u, In u (map unit_id t) -> no_overlap t u.
Proof.
  unfold unbatched_check, no_overlap. rewrite forallb_forall. split.
  - intros H u Hu. apply (proj2 (unique_In _ unit_id_eqb_eq _ _)) in Hu.
    specialize (H u Hu). cbv beta in H.
    destruct (identifier_overlaps t u) as [[|]|e]; congruence.
  - intros H u Hu. apply (proj1 (unique_In _ unit_id_eqb_eq _ _)) in Hu.
    now rewrite (H u Hu).
Qed.

Lemma passes_unbatched (batch_size : nat) (t : table) :
  0 < batch_size ->
  passes (no_overlapping_timespans_check_with batch_size t) =
  unbatched_check t.
Proof.
  intros Hpos. apply eq_true_iff_eq.
  rewrite passes_Ok, unbatched_check_true.
  now apply no_overlapping_timespans_check_with_Ok.
Qed.

(** C3.  Whether the overlap check passes does not depend on the batch
    size: any two positive batch sizes, and the 5,000,000 the check
    uses, give the outcome of the unbatched check that scans every
    identifier on its own. *)
Theorem no_overlapping_timespans_check_batch_size (t : table)
  (batch_size batch_size' : nat) :
  0 < batch_size -> 0 < batch_size' ->
  passes (no_overlapping_timespans_check_with batch_size t) =
  passes (no_overlapping_timespans_check_with batch_size' t) /\
  passes (no_overlapping_timespans_check_with batch_size t) =
  unbatched_check t /\
  passes (no_overlapping_timespans_check t) = unbatched_check t.
Proof.
  intros Hpos Hpos'. repeat split.
  - now rewrite !passes_unbatched.
  - now apply passes_unbatched.
  - apply passes_unbatched. apply BATCH_SIZE_positive.
Qed.

(** ** Temporal coverage *)

Lemma epoch_date_string_int16 (d : Z) :
  int16 d = true -> epoch_date_string (Some d) = Ok (date_string d).
Proof.
  unfold int16, epoch_date_string, EPOCH_ORDINAL, MAX_ORDINAL.
  rewrite andb_true_iff, !Z.leb_le. intros [Hlo Hhi].
  destruct (Z.leb_spec 1 (719163 + d)); [|lia].
  destruct (Z.leb_spec (719163 + d) 3652059); [|lia].
  reflexivity.
Qed.

Lemma some_values_In {A : Type} (column : list (option A)) (x : A) :
  In x (some_values column) <-> In (Some x) column.
Proof.
  induction column as [|[y|] l IH]; simpl; [tauto| |].
  - rewrite IH. split; intros [H|H]; auto; left; congruence.
  - rewrite IH. split; [auto|]. intros [H|H]; [discriminate | exact H].
Qed.

Lemma some_values_nil {A : Type} (column : list (option A)) :
  some_values column = [] <-> existsb is_some column = false.
Proof.
  induction column as [|[y|] l IH]; simpl; [tauto| |exact IH].
  split; discriminate.
Qed.

Lemma fold_left_max_int16 (l : list Z) (x : Z) :
  int16 x = true -> Forall (fun z => int16 z = true) l ->
  int16 (fold_left Z.max l x) = true.
Proof.
  revert x. induction l as [|y l IH]; simpl; intros x Hx Hl; [exact Hx|].
  inversion Hl; subst. apply IH; [|assumption].
  destruct (Z.max_spec x y) as [[_ ->]|[_ ->]]; assumption.
Qed.

Lemma fold_left_min_int16 (l : list Z) (x : Z) :
  int16 x = true -> Forall (fun z => int16 z = true) l ->
  int16 (fold_left Z.min l x) = true.
Proof.
  revert x. induction l as [|y l IH]; simpl; intros x Hx Hl; [exact Hx|].
  inversion Hl; subst. apply IH; [|assumption].
  destruct (Z.min_spec x y) as [[_ ->]|[_ ->]]; assumption.
Qed.

Lemma int16_table_columns (t : table) :
  int16_table t = true ->
  int16_column (map start_epoch_days t) /\
  int16_column (map stop_epoch_days t).
Proof.
  unfold int16_table, int16_column. rewrite forallb_forall.
  intros H. split; apply Forall_forall; intros c Hc;
    apply in_map_iff in Hc; destruct Hc as [r [<- Hr]];
    apply H in Hr; apply andb_true_iff in Hr; tauto.
Qed.

Lemma int16_some_values (column : list (option Z)) :
  int16_column column -> Forall (fun z => int16 z = true) (some_values column).
Proof.
  unfold int16_column. rewrite !Forall_forall. intros H z Hz.
  apply some_values_In in Hz. now apply (H (Some z)).
Qed.

Lemma compute_max_int16 (column : list (option Z)) :
  int16_column column -> int16_cell (compute_max column) = true.
Proof.
  intros H. apply int16_some_values in H. unfold compute_max.
  destruct (some_values column) as [|x l]; [reflexivity|].
  inversion H; subst. simpl. now apply fold_left_max_int16.
Qed.

Lemma compute_min_int16 (column : list (option Z)) :
  int16_column column -> int16_cell (compute_min column) = true.
Proof.
  intros H. apply int16_some_values in H. unfold compute_min.
  destruct (some_values column) as [|x l]; [reflexivity|].
  inversion H; subst. simpl. now apply fold_left_min_int16.
Qed.

Lemma compute_max_is_some (column : list (option Z)) :
  is_some (compute_max column) = existsb is_some column.
Proof.
  unfold compute_max. destruct (some_values column) as [|x l] eqn:E; simpl.
  - symmetry. now apply some_values_nil.
  - destruct (existsb is_some column) eqn:Ex; [reflexivity|].
    apply some_values_nil in Ex. congruence.
Qed.

Lemma compute_min_is_some (column : list (option Z)) :
  is_some (compute_min column) = existsb is_some column.
Proof.
  unfold compute_min. destruct (some_values column) as [|x l] eqn:E; simpl.
  - symmetry. now apply some_values_nil.
  - destruct (existsb is_some column) eqn:Ex; [reflexivity|].
    apply some_values_nil in Ex. congruence.
Qed.

Lemma map_result_Ok {A B : Type} (f : A -> result B) (l : list A) :
  (exists ys, map_result f l = Ok ys) <->
  Forall (fun x => exists y, f x = Ok y) l.
Proof.
  induction l as [|x l IH]; simpl.
  - split; [constructor | intros _; now exists []].
  - destruct (f x) as [y|e] eqn:E; simpl.
    + destruct (map_result f l) as [ys|e'] eqn:El; simpl.
      * split; [|intros _; eexists; reflexivity].
        intros _. constructor; [now exists y|].
        apply IH. now exists ys.
      * split; [intros [ys Hys]; discriminate|].
        intros H. inversion H; subst.
        apply IH in H3. destruct H3 as [ys Hys]. discriminate.
    + split; [intros [ys Hys]; discriminate|].
      intros H. inversion H as [|? ? [y Hy] _]; subst. congruence.
Qed.

Lemma map_result_map {A B : Type} (f : A -> result B) (g : A -> B)
  (l : list A) :
  Forall (fun x => f x = Ok (g x)) l -> map_result f l = Ok (map g l).
Proof.
  induction 1 as [|x l Hx _ IH]; simpl; [reflexivity|].
  now rewrite Hx, IH.
Qed.

Lemma status_dates_Ok (column : list (option Z)) :
  int16_column column ->
  ((exists l, map_result epoch_date_string (unique days_eqb column) = Ok l)
   <-> forallb is_some column = true).
Proof.
  intros Hint. unfold int16_column in Hint.
  rewrite map_result_Ok, forallb_forall, !Forall_forall in *. split.
  - intros H c Hc.
    destruct (H c (proj2 (unique_In _ days_eqb_eq c column) Hc)) as [y Hy].
    destruct c; [reflexivity | discriminate].
  - intros H c Hc. apply (proj1 (unique_In _ days_eqb_eq c column)) in Hc.
    pose proof (H c Hc) as Hsome. pose proof (Hint c Hc) as Hc16.
    destruct c as [d|]; [|discriminate].
    exists (date_string d). now apply epoch_date_string_int16.
Qed.

Lemma int16_min (a b : Z) :
  int16 a = true -> int16 b = true -> int16 (Z.min a b) = true.
Proof. intros. destruct (Z.min_spec a b) as [[_ ->]|[_ ->]]; assumption. Qed.

Lemma int16_max (a b : Z) :
  int16 a = true -> int16 b = true -> int16 (Z.max a b) = true.
Proof. intros. destruct (Z.max_spec a b) as [[_ ->]|[_ ->]]; assumption. Qed.

(** The bounds of the coverage for a type other than FIXED. *)
Lemma coverage_bounds_Ok (starts stops : list (option Z)) :
  int16_column starts -> int16_column stops ->
  (exists p,
     (let '(start_min, start_max) := compute_min_max starts in
      let '(stop_min, stop_max) := compute_min_max stops in
      min_date <- py_min (some_values [start_min; stop_min]) ;;
      max_date <- py_max (some_values [start_max; stop_max]) ;;
      start <- epoch_date_string (Some min_date) ;;
      latest <- epoch_date_string (Some max_date) ;;
      Ok (start, latest)) = Ok p)
  <-> existsb is_some starts || existsb is_some stops = true.
Proof.
  intros Hstarts Hstops. unfold compute_min_max.
  pose proof (compute_min_is_some starts) as H1.
  pose proof (compute_max_is_some starts) as H2.
  pose proof (compute_min_is_some stops) as H3.
  pose proof (compute_max_is_some stops) as H4.
  pose proof (compute_min_int16 starts Hstarts) as I1.
  pose proof (compute_max_int16 starts Hstarts) as I2.
  pose proof (compute_min_int16 stops Hstops) as I3.
  pose proof (compute_max_int16 stops Hstops) as I4.
  rewrite <- H2, <- H4.
  destruct (existsb is_some starts), (existsb is_some stops);
    destruct (compute_min starts) as [a1|]; try discriminate;
    destruct (compute_max starts) as [a2|]; try discriminate;
    destruct (compute_min stops) as [b1|]; try discriminate;
    destruct (compute_max stops) as [b2|]; try discriminate;
    cbn [some_values py_min py_max fold_left bind is_some orb int16_cell] in *.
  - rewrite !epoch_date_string_int16
      by (try apply int16_min; try apply int16_max; assumption).
    cbn [bind]. split; [reflexivity | intros _; eexists; reflexivity].
  - rewrite !epoch_date_string_int16 by assumption.
    cbn [bind]. split; [reflexivity | intros _; eexists; reflexivity].
  - rewrite !epoch_date_string_int16 by assumption.
    cbn [bind]. split; [reflexivity | intros _; eexists; reflexivity].
  - split; [intros [p Hp]; discriminate | discriminate].
Qed.

Lemma get_temporal_data_Ok (t : table) (temporality_type : string) :
  int16_table t = true ->
  ((exists td, get_temporal_data t temporality_type = Ok td) <->
   coverage_defined t temporality_type = true).
Proof.
  intros Hint.
  destruct (int16_table_columns t Hint) as [Hstarts Hstops].
  unfold get_temporal_data, coverage_defined.
  destruct (String.eqb_spec temporality_type "FIXED") as [->|Hfixed].
  - cbn [String.eqb Ascii.eqb Bool.eqb].
    rewrite <- compute_max_is_some.
    pose proof (compute_max_int16 _ Hstops) as Hmax.
    destruct (compute_max (map stop_epoch_days t)) as [d|];
      cbn [is_some int16_cell] in *.
    + rewrite epoch_date_string_int16 by assumption. cbn [bind].
      split; [reflexivity | intros _; eexists; reflexivity].
    + cbn [epoch_date_string bind].
      split; [intros [td Htd]; discriminate | discriminate].
  - pose proof (coverage_bounds_Ok _ _ Hstarts Hstops) as Hbounds.
    destruct (let '(start_min, start_max) :=
                compute_min_max (map start_epoch_days t) in _)
      as [p|e] eqn:Ep.
    + rewrite (proj1 Hbounds (ex_intro _ p eq_refl)). cbn [bind andb].
      destruct (temporality_type =? "STATUS")%string.
      * rewrite <- (status_dates_Ok _ Hstarts).
        destruct (map_result epoch_date_string _) as [l|e']; cbn [bind].
        -- split; [intros _ | intros _]; eexists; reflexivity.
        -- split; intros [x Hx]; discriminate.
      * split; [reflexivity | intros _; eexists; reflexivity].
    + cbn [bind].
      destruct (existsb is_some (map start_epoch_days t)
                || existsb is_some (map stop_epoch_days t)) eqn:Ex.
      * destruct (proj2 Hbounds eq_refl) as [p Hp]. discriminate.
      * cbn [andb]. split; [intros [td Htd]; discriminate | discriminate].
Qed.

(** C7, as amended.  On a table whose epoch-day cells are 16-bit,
    get_temporal_data returns exactly when the table holds the values
    the summary is computed from: a non-null stop for FIXED; otherwise a
    non-null start or stop and, for STATUS, no null start.  It raises on
    the empty table, and on every other table that lacks those
    values. *)
Theorem get_temporal_data_completes (t : table) (temporality_type : string) :
  int16_table t = true ->
  ((exists td, get_temporal_data t temporality_type = Ok td) <->
   coverage_defined t temporality_type = true) /\
  coverage_defined [] temporality_type = false.
Proof.
  intros Hint. split; [now apply get_temporal_data_Ok|].
  unfold coverage_defined. simpl.
  now destruct (temporality_type =? "FIXED")%string.
Qed.

(** ** Order of date strings *)

Lemma ascii_compare_lt (a b : ascii) :
  Ascii.compare a b = Lt <-> (N_of_ascii a < N_of_ascii b)%N.
Proof. unfold Ascii.compare. apply N.compare_lt_iff. Qed.

Lemma ascii_compare_eq (a b : ascii) : Ascii.compare a b = Eq <-> a = b.
Proof.
  split; [apply Ascii.compare_eq_iff|].
  intros ->. unfold Ascii.compare. apply N.compare_refl.
Qed.

Lemma string_compare_refl (s : string) : String.compare s s = Eq.
Proof.
  induction s as [|a s IH]; simpl; [reflexivity|].
  now rewrite (proj2 (ascii_compare_eq a a) eq_refl).
Qed.

Lemma string_compare_lt_trans (s1 s2 s3 : string) :
  String.compare s1 s2 = Lt -> String.compare s2 s3 = Lt ->
  String.compare s1 s3 = Lt.
Proof.
  revert s2 s3.
  induction s1 as [|a s1 IH]; intros [|b s2] [|c s3]; simpl;
    try discriminate; try reflexivity.
  destruct (Ascii.compare a b) eqn:Hab; try discriminate;
    destruct (Ascii.compare b c) eqn:Hbc; try discriminate.
  - apply (proj1 (ascii_compare_eq _ _)) in Hab.
    apply (proj1 (ascii_compare_eq _ _)) in Hbc. subst b c.
    rewrite (proj2 (ascii_compare_eq a a) eq_refl). apply IH.
  - apply (proj1 (ascii_compare_eq _ _)) in Hab. subst b. now rewrite Hbc.
  - apply (proj1 (ascii_compare_eq _ _)) in Hbc. subst c. now rewrite Hab.
  - apply (proj1 (ascii_compare_lt _ _)) in Hab.
    apply (proj1 (ascii_compare_lt _ _)) in Hbc.
    rewrite (proj2 (ascii_compare_lt a c)) by lia. reflexivity.
Qed.

Lemma check_range_correct (p : Z -> bool) (k : nat) (lo : Z) :
  check_range p k lo = true ->
  forall d, (lo <= d < lo + 2 ^ Z.of_nat k)%Z -> p d = true.
Proof.
  revert lo. induction k as [|k IH]; intros lo Hcheck d Hd.
  - simpl in *. replace d with lo by lia. exact Hcheck.
  - cbn [check_range] in Hcheck. apply andb_true_iff in Hcheck.
    destruct Hcheck as [H1 H2].
    rewrite Nat2Z.inj_succ, Z.pow_succ_r in Hd by lia.
    destruct (Z.lt_ge_cases d (lo + 2 ^ Z.of_nat k)).
    + apply (IH lo H1). lia.
    + apply (IH _ H2). lia.
Qed.

(** Over the 16-bit range, the next day has the greater date string. *)
Lemma date_string_next (d : Z) :
  int16 d = true ->
  String.compare (date_string d) (date_string (d + 1)) = Lt.
Proof.
  intros Hd.
  assert (Hall : check_range
                   (fun d => String.ltb (date_string d) (date_string (d + 1)))
                   16 (-32768) = true) by (vm_cast_no_check (eq_refl true)).
  pose proof (check_range_correct _ _ _ Hall d) as H.
  unfold int16 in Hd. rewrite andb_true_iff, !Z.leb_le in Hd.
  assert (Hr : (-32768 <= d < -32768 + 2 ^ Z.of_nat 16)%Z).
  { change (2 ^ Z.of_nat 16)%Z with 65536%Z. lia. }
  specialize (H Hr). unfold String.ltb in H.
  destruct (String.compare _ _); congruence.
Qed.

Lemma date_string_lt (x y : Z) :
  int16 x = true -> int16 y = true -> (x < y)%Z ->
  String.compare (date_string x) (date_string y) = Lt.
Proof.
  intros Hx Hy Hlt.
  replace y with (x + 1 + Z.of_nat (Z.to_nat (y - x - 1)))%Z by lia.
  assert (Hbound : (x + 1 + Z.of_nat (Z.to_nat (y - x - 1)) <= y)%Z) by lia.
  induction (Z.to_nat (y - x - 1)) as [|n IH].
  - rewrite Z.add_0_r. now apply date_string_next.
  - apply string_compare_lt_trans
      with (s2 := date_string (x + 1 + Z.of_nat n)).
    + apply IH. lia.
    + replace (x + 1 + Z.of_nat (S n))%Z with (x + 1 + Z.of_nat n + 1)%Z
        by lia.
      apply date_string_next.
      unfold int16 in *. rewrite andb_true_iff, !Z.leb_le in *. lia.
Qed.

Lemma date_string_leb (x y : Z) :
  int16 x = true -> int16 y = true ->
  String.leb (date_string x) (date_string y) = (x <=? y)%Z.
Proof.
  intros Hx Hy. unfold String.leb.
  destruct (Z.leb_spec x y) as [Hle|Hgt].
  - destruct (Z.eq_dec x y) as [->|Hne].
    + now rewrite string_compare_refl.
    + rewrite (date_string_lt x y) by (try assumption; lia). reflexivity.
  - rewrite String.compare_antisym.
    rewrite (date_string_lt y x) by assumption. reflexivity.
Qed.

(** ** Status dates *)

Lemma insert_days_In (d : Z) (l : list Z) (x : Z) :
  In x (insert_days d l) <-> x = d \/ In x l.
Proof.
  induction l as [|y l IH]; simpl.
  - split; [intros [<-|[]]; now left | intros [->|[]]; now left].
  - destruct (d <=? y)%Z; simpl.
    + split; [intros [<-|H]; auto | intros [->|H]; auto].
    + rewrite IH. split.
      * intros [<-|[->|H]]; auto.
      * intros [->|[<-|H]]; auto.
Qed.

Lemma sort_days_In (l : list Z) (x : Z) : In x (sort_days l) <-> In x l.
Proof.
  induction l as [|y l IH]; simpl; [tauto|].
  rewrite insert_days_In, IH. split; intros [H|H]; auto.
Qed.

Lemma insert_days_sorted (d : Z) (l : list Z) :
  ~ In d l -> StronglySorted Z.lt l -> StronglySorted Z.lt (insert_days d l).
Proof.
  intros Hnotin Hsorted.
  induction Hsorted as [|y l Hsorted IH Hall]; simpl.
  - constructor; constructor.
  - assert (Hne : d <> y) by (intros ->; apply Hnotin; now left).
    destruct (Z.leb_spec d y) as [Hle|Hgt].
    + constructor; [constructor; assumption|].
      constructor; [lia|].
      revert Hall. apply Forall_impl. intros z Hz. lia.
    + constructor.
      * apply IH. intros Hin. apply Hnotin. now right.
      * apply Forall_forall. intros z Hz.
        apply (proj1 (insert_days_In _ _ _)) in Hz.
        destruct Hz as [->|Hz]; [lia|].
        rewrite Forall_forall in Hall. now apply Hall.
Qed.

Lemma sort_days_sorted (l : list Z) :
  NoDup l -> StronglySorted Z.lt (sort_days l).
Proof.
  induction 1 as [|d l Hnotin Hnd IH]; simpl; [constructor|].
  apply insert_days_sorted; [|exact IH].
  now rewrite sort_days_In.
Qed.

Lemma insert_string_date_string (d : Z) (l : list Z) :
  int16 d = true -> Forall (fun z => int16 z = true) l ->
  insert_string (date_string d) (map date_string l) =
  map date_string (insert_days d l).
Proof.
  intros Hd. induction 1 as [|y l Hy _ IH]; simpl; [reflexivity|].
  rewrite date_string_leb by assumption.
  destruct (d <=? y)%Z; simpl; [reflexivity|]. now rewrite IH.
Qed.

Lemma sort_strings_date_string (l : list Z) :
  Forall (fun z => int16 z = true) l ->
  sort_strings (map date_string l) = map date_string (sort_days l).
Proof.
  induction 1 as [|d l Hd Hl IH]; simpl; [reflexivity|].
  rewrite IH. apply insert_string_date_string; [exact Hd|].
  apply Forall_forall. intros z Hz.
  apply (proj1 (sort_days_In _ _)) in Hz.
  rewrite Forall_forall in Hl. now apply Hl.
Qed.

Lemma some_values_NoDup {A : Type} (column : list (option A)) :
  NoDup column -> NoDup (some_values column).
Proof.
  induction 1 as [|[x|] l Hnotin Hnd IH]; simpl; [constructor| |exact IH].
  constructor; [|exact IH]. now rewrite some_values_In.
Qed.

Lemma map_decode_cell (column : list (option Z)) :
  Forall (fun c => c <> None) column ->
  map decode_cell column = map date_string (some_values column).
Proof.
  induction 1 as [|[d|] l Hc _ IH]; simpl; [reflexivity| |contradiction].
  now rewrite IH.
Qed.

(** C6.  For a non-empty STATUS table with 16-bit epoch days and no
    null start, get_temporal_data returns, and after
    metadata_update_temporal_coverage the revision's temporalStatusDates
    (the same list as the summary's statusDates) is the date strings of
    the distinct [start_epoch_days] of the table in strictly ascending
    day order. *)
Theorem status_dates_sorted_distinct (t : table) (md : metadata) :
  t <> [] ->
  Forall (fun r => start_epoch_days r <> None) t ->
  int16_table t = true ->
  temporalityType md = "STATUS" ->
  exists td days,
    get_temporal_data t "STATUS" = Ok td /\
    (let '(md', td', raised) := metadata_update_temporal_coverage md td in
     raised = Ok tt /\
     temporalStatusDates (dataRevision md') = Some (map date_string days) /\
     td_statusDates td' = Some (map date_string days)) /\
    StronglySorted Z.lt days /\
    (forall d, In d days <-> In (Some d) (map start_epoch_days t)).
Proof.
  intros Hnonempty Hstarts Hint Hstatus.
  destruct (int16_table_columns t Hint) as [Hcol Hcol'].
  set (starts := map start_epoch_days t) in *.
  assert (Hnonnull : Forall (fun c => c <> None) (unique days_eqb starts)).
  { apply Forall_forall. intros c Hc.
    apply (proj1 (unique_In _ days_eqb_eq c starts)) in Hc.
    unfold starts in Hc. apply in_map_iff in Hc. destruct Hc as [r [<- Hr]].
    rewrite Forall_forall in Hstarts. now apply Hstarts. }
  assert (Hdates : map_result epoch_date_string (unique days_eqb starts)
                   = Ok (map date_string
                           (some_values (unique days_eqb starts)))).
  { rewrite <- map_decode_cell by exact Hnonnull.
    apply map_result_map. apply Forall_forall. intros c Hc.
    pose proof (proj1 (Forall_forall _ _) Hnonnull c Hc) as Hsome.
    apply (proj1 (unique_In _ days_eqb_eq c starts)) in Hc.
    pose proof (proj1 (Forall_forall _ _) Hcol c Hc) as H16.
    destruct c as [d|]; [|contradiction].
    now apply epoch_date_string_int16. }
  assert (Hdefined : coverage_defined t "STATUS" = true).
  { unfold coverage_defined. cbn [String.eqb Ascii.eqb Bool.eqb].
    fold starts.
    assert (Hall : forallb is_some starts = true).
    { apply forallb_forall. intros c Hc. unfold starts in Hc.
      apply in_map_iff in Hc. destruct Hc as [r [<- Hr]].
      rewrite Forall_forall in Hstarts. apply Hstarts in Hr.
      now destruct (start_epoch_days r). }
    rewrite Hall.
    destruct t as [|r t']; [contradiction|].
    unfold starts in *. simpl in Hall |- *.
    apply andb_true_iff in Hall. destruct Hall as [Hr _].
    now rewrite Hr. }
  apply (proj2 (get_temporal_data_Ok t "STATUS" Hint)) in Hdefined.
  destruct Hdefined as [td Htd].
  exists td, (sort_days (some_values (unique days_eqb starts))).
  split; [exact Htd|].
  assert (Htd_dates : td_statusDates td
                      = Some (map date_string
                                (some_values (unique days_eqb starts)))).
  { unfold get_temporal_data in Htd.
    cbn [String.eqb Ascii.eqb Bool.eqb] in Htd. fold starts in Htd.
    destruct (let '(start_min, start_max) := compute_min_max starts in _)
      as [p|e]; cbn [bind] in Htd; [|discriminate].
    rewrite Hdates in Htd. cbn [bind] in Htd.
    injection Htd as <-. reflexivity. }
  assert (H16 : Forall (fun z => int16 z = true)
                  (some_values (unique days_eqb starts))).
  { apply int16_some_values. unfold int16_column.
    apply Forall_forall. intros c Hc.
    apply (proj1 (unique_In _ days_eqb_eq c starts)) in Hc.
    exact (proj1 (Forall_forall _ _) Hcol c Hc). }
  split; [|split].
  - unfold metadata_update_temporal_coverage.
    rewrite Hstatus. cbn [String.eqb Ascii.eqb Bool.eqb].
    rewrite Htd_dates. cbn [dataRevision temporalStatusDates td_statusDates].
    rewrite sort_strings_date_string by exact H16.
    repeat split; reflexivity.
  - apply sort_days_sorted, some_values_NoDup.
    apply (unique_NoDup _ days_eqb_eq).
  - intros d. rewrite sort_days_In, some_values_In.
    apply (unique_In _ days_eqb_eq).
Qed.

(** ** The calendar on known dates *)

Example date_string_epoch : date_string 0 = "1970-01-01".
Proof. reflexivity. Qed.

Example date_string_leap_day : date_string 11016 = "2000-02-29".
Proof. reflexivity. Qed.

Example date_string_least : date_string (-32768) = "1880-04-14".
Proof. reflexivity. Qed.

Example date_string_greatest : date_string 32767 = "2059-09-18".
Proof. reflexivity. Qed.

Example date_string_year_start : date_string 19723 = "2024-01-01".
Proof. reflexivity. Qed.

(** ** The rules on the example tables *)

(** C1.  The rules do not attach the sample of five identifiers that
    [_format_error_message] builds: on six rows without a start the
    EVENT rule raises with the whole table of invalid rows in its
    message, and the identifier rule raises with its bare name. *)
Theorem rule_failures_carry_no_bounded_sample :
  event_temporal_variables_check six_open_rows =
  Raise (ValueError
           [Text "valid_event_temporal_columns_check ";
            ArrowTable [Some "u1"; Some "u2"; Some "u3"; Some "u4";
                        Some "u5"; Some "u6"]]) /\
  _format_error_message (map unit_id six_open_rows) "Invalid rows" =
  [Text "Invalid rows"; Text ". For rows with identifiers: ";
   PyList [Some "u1"; Some "u2"; Some "u3"; Some "u4"; Some "u5"];
   Text "..."] /\
  valid_unit_id_check empty_identifier_row =
  Raise (ValueError [Text "valid_unit_id_column_check"]).
Proof. repeat split; reflexivity. Qed.

Lemma find_overlap_adjacent_pairs_witness :
  Forall (fun r => start_epoch_days r <> None) event_rows /\
  (no_overlapping_timespans_check event_rows = Ok tt <->
   forall u, In u (map unit_id event_rows) ->
     ~ exists i,
         overlap_at (map start_epoch_days (intervals_of u event_rows))
                    (map stop_epoch_days (intervals_of u event_rows)) i).
Proof.
  assert (H : Forall (fun r => start_epoch_days r <> None) event_rows)
    by (repeat constructor; discriminate).
  split; [exact H|].
  exact (proj1 (proj2 (proj2 (proj2
           (find_overlap_adjacent_pairs event_rows H))))).
Defined.

(** Two rows of one identifier, one without a start: sorted with the
    null start last, no interval before the last has a null stop or a
    stop greater than the next start, and yet the check does not pass;
    the comparison with the null start raises. *)
Lemma find_overlap_raises_on_null_start :
  map start_epoch_days (intervals_of (Some "A") null_start_rows) =
  [Some 1%Z; None] /\
  map stop_epoch_days (intervals_of (Some "A") null_start_rows) =
  [Some 2%Z; Some 5%Z] /\
  (forall i, ~ overlap_at [Some 1%Z; None] [Some 2%Z; Some 5%Z] i) /\
  identifier_overlaps null_start_rows (Some "A") =
  Raise (TypeError
           "'>' not supported between instances of 'int' and 'NoneType'") /\
  no_overlapping_timespans_check_with 1 null_start_rows =
  Raise (TypeError
           "'>' not supported between instances of 'int' and 'NoneType'") /\
  passes (no_overlapping_timespans_check null_start_rows) = false.
Proof.
  split; [reflexivity|]. split; [reflexivity|]. split.
  - intros [|[|i]] [Hlt H]; simpl in Hlt; try lia.
    destruct H as [H|[e [s [_ [H _]]]]]; discriminate.
  - split; [reflexivity|]. split; [reflexivity|].
    rewrite (passes_unbatched _ _ BATCH_SIZE_positive). reflexivity.
Qed.

Lemma no_overlapping_timespans_check_batch_size_witness :
  passes (no_overlapping_timespans_check_with 1 event_rows) =
  passes (no_overlapping_timespans_check_with 7 event_rows) /\
  passes (no_overlapping_timespans_check_with 1 event_rows) =
  unbatched_check event_rows /\
  passes (no_overlapping_timespans_check event_rows) =
  unbatched_check event_rows.
Proof.
  apply (no_overlapping_timespans_check_batch_size event_rows 1 7); lia.
Defined.

Lemma only_unique_identifiers_check_global_witness :
  Forall (fun r => unit_id r <> None) fixed_rows /\
  (only_unique_identifiers_check fixed_rows = Ok tt <->
   global_unique_identifiers fixed_rows).
Proof.
  assert (H : Forall (fun r => unit_id r <> None) fixed_rows)
    by (repeat constructor; discriminate).
  split; [exact H|].
  exact (only_unique_identifiers_check_global fixed_rows H).
Defined.

(** A table of one FIXED row with a null stop is not empty, and the
    summary raises on it. *)
Lemma get_temporal_data_raises_on_rows :
  fixed_without_stop <> [] /\
  int16_table fixed_without_stop = true /\
  get_temporal_data fixed_without_stop "FIXED" =
  Raise (TypeError "unsupported type for timedelta days component: NoneType").
Proof. split; [discriminate|]. split; reflexivity. Qed.

(** A STATUS table of two rows, one without a start: the summary
    raises while it decodes the status dates, and reports none. *)
Lemma status_dates_raise_on_null_start :
  status_with_null_start <> [] /\
  int16_table status_with_null_start = true /\
  get_temporal_data status_with_null_start "STATUS" =
  Raise (TypeError "unsupported type for timedelta days component: NoneType").
Proof. split; [discriminate|]. split; reflexivity. Qed.

Lemma get_temporal_data_completes_witness :
  int16_table status_rows = true /\
  ((exists td, get_temporal_data status_rows "STATUS" = Ok td) <->
   coverage_defined status_rows "STATUS" = true).
Proof.
  split; [reflexivity|].
  exact (proj1 (get_temporal_data_completes status_rows "STATUS" eq_refl)).
Defined.

Lemma status_dates_sorted_distinct_witness :
  exists td days,
    get_temporal_data status_rows "STATUS" = Ok td /\
    (let '(md', td', raised) :=
       metadata_update_temporal_coverage status_metadata td in
     raised = Ok tt /\
     temporalStatusDates (dataRevision md') = Some (map date_string days) /\
     td_statusDates td' = Some (map date_string days)) /\
    StronglySorted Z.lt days /\
    (forall d, In d days <-> In (Some d) (map start_epoch_days status_rows)).
Proof.
  apply (status_dates_sorted_distinct status_rows status_metadata).
  - discriminate.
  - repeat constructor; discriminate.
  - reflexivity.
  - reflexivity.
Defined.

(** The outcomes on the example tables, by evaluation. *)
Example overlap_check_on_event_rows :
  no_overlapping_timespans_check_with 1 event_rows =
  Raise (overlap_error (Some "B")) /\
  identifier_overlaps event_rows (Some "A") = Ok false /\
  identifier_overlaps event_rows (Some "B") = Ok true.
Proof. repeat split; reflexivity. Qed.

Example uniqueness_on_fixed_rows :
  only_unique_identifiers_check fixed_rows =
  Raise (ValueError [Text "identifier diff"]).
Proof. reflexivity. Qed.

Example status_dates_on_status_rows :
  option_map td_statusDates
    (match get_temporal_data status_rows "STATUS" with
     | Ok td =>
         Some (snd (fst (metadata_update_temporal_coverage status_metadata td)))
     | Raise _ => None
     end) =
  Some (Some ["1969-12-31"; "1970-01-01"; "2024-01-01"]).
Proof. reflexivity. Qed.
(** * Further properties of the rules *)

Lemma rows_check_Ok {C : Type} (t : table) (f : row -> option bool)
  (column : row -> C) (e : exn) :
  (if (0 <? List.length (to_table t f column))%nat then Raise e else Ok tt)
  = Ok tt <-> Forall (fun r => selected (f r) = false) t.
Proof.
  rewrite to_table_nonempty, <- existsb_false_Forall.
  destruct (existsb _ t); split; congruence.
Qed.

Lemma Forall_iff {A : Type} (P Q : A -> Prop) (l : list A) :
  (forall x, P x <-> Q x) -> (Forall P l <-> Forall Q l).
Proof.
  intros H. split; apply Forall_impl; intros x; apply H.
Qed.

Lemma valid_unit_id_check_Ok (t : table) :
  valid_unit_id_check t = Ok tt <-> Forall unit_id_row_valid t.
Proof.
  unfold valid_unit_id_check. rewrite rows_check_Ok.
  apply Forall_iff. intros r. unfold unit_id_row_valid.
  destruct (unit_id r) as [u|]; simpl.
  - destruct (String.eqb_spec u "") as [->|Hne]; simpl.
    + split; [discriminate|]. intros [u [Hu Hne]].
      injection Hu as <-. contradiction.
    + split; [|reflexivity]. intros _. exists u. auto.
  - split; [discriminate|]. intros [u [Hu _]]. discriminate.
Qed.

(** X1.  The identifier rule passes exactly when every [unit_id] is a
    non-null, non-empty string, and otherwise raises the one
    [ValueError] of the rule. *)
Theorem valid_unit_id_check_passes_iff (t : table) :
  (valid_unit_id_check t = Ok tt <-> Forall unit_id_row_valid t) /\
  (valid_unit_id_check t = Ok tt \/
   valid_unit_id_check t =
   Raise (ValueError [Text "valid_unit_id_column_check"])).
Proof.
  split; [apply valid_unit_id_check_Ok|].
  unfold valid_unit_id_check. destruct (_ <? _)%nat; auto.
Qed.

Lemma fixed_temporal_variables_check_Ok (t : table) :
  fixed_temporal_variables_check t = Ok tt <-> Forall fixed_row_valid t.
Proof.
  unfold fixed_temporal_variables_check. rewrite rows_check_Ok.
  apply Forall_iff. intros r. unfold fixed_row_valid.
  destruct (start_epoch_days r), (stop_epoch_days r); simpl;
    split; try discriminate; try reflexivity;
    try (intros [H1 H2]; congruence).
  intros _. split; [reflexivity | discriminate].
Qed.

(** X2.  The FIXED temporal-field rule passes exactly when every row
    has a null start and a non-null stop; a table without rows
    passes. *)
Theorem fixed_temporal_variables_check_passes_iff (t : table) :
  (fixed_temporal_variables_check t = Ok tt <-> Forall fixed_row_valid t) /\
  fixed_temporal_variables_check [] = Ok tt.
Proof. split; [apply fixed_temporal_variables_check_Ok | reflexivity]. Qed.

Lemma accumulated_temporal_variables_check_Ok (t : table) :
  accumulated_temporal_variables_check t = Ok tt <->
  Forall accumulated_row_valid t.
Proof.
  unfold accumulated_temporal_variables_check. rewrite rows_check_Ok.
  apply Forall_iff. intros r. unfold accumulated_row_valid.
  destruct (start_epoch_days r) as [s|], (stop_epoch_days r) as [e|]; simpl;
    try (split; [discriminate | intros [s' [e' [H1 [H2 _]]]]; discriminate]).
  rewrite Z.geb_leb. destruct (Z.leb_spec e s) as [Hle|Hgt]; simpl.
  - split; [discriminate|]. intros [s' [e' [H1 [H2 Hlt]]]].
    injection H1 as <-. injection H2 as <-. lia.
  - split; [|reflexivity]. intros _. exists s, e. auto.
Qed.

(** X3.  The ACCUMULATED temporal-field rule passes exactly when every
    row has a start and a stop, the stop strictly after the start; a
    stop on the day of the start is refused. *)
Theorem accumulated_temporal_variables_check_passes_iff (t : table) :
  (accumulated_temporal_variables_check t = Ok tt <->
   Forall accumulated_row_valid t) /\
  (forall u d, exists e,
      accumulated_temporal_variables_check
        [mkRow u None None (Some d) (Some d)] = Raise e).
Proof.
  split; [apply accumulated_temporal_variables_check_Ok|].
  intros u d. unfold accumulated_temporal_variables_check, to_table. simpl.
  rewrite Z.geb_leb, Z.leb_refl. simpl. eexists. reflexivity.
Qed.

Lemma existsb_map_compose {A B : Type} (f : B -> bool) (g : A -> B)
  (l : list A) :
  existsb f (map g l) = existsb (fun x => f (g x)) l.
Proof. induction l as [|x l IH]; simpl; [reflexivity | now rewrite IH]. Qed.

Lemma is_in_values (v : value) (codes : list value) :
  selected (invert (is_in value_eqb (Some v) (map Some codes))) = false <->
  In v codes.
Proof.
  unfold is_in, invert, selected. simpl.
  rewrite existsb_map_compose.
  destruct (existsb _ codes) eqn:E; simpl.
  - split; [intros _ | reflexivity].
    apply existsb_exists in E. destruct E as [c [Hc Heq]].
    apply value_eqb_eq in Heq. now subst.
  - split; [discriminate|]. intros Hin.
    rewrite existsb_false_Forall, Forall_forall in E.
    pose proof (E v Hin) as Hv. cbv beta in Hv.
    rewrite (proj2 (value_eqb_eq v v) eq_refl) in Hv. discriminate.
Qed.

Lemma valid_value_column_check_codes (t : table)
  (data_type : string) (item : code_list_item) (items : list code_list_item)
  (sentinel_list : option (list code_list_item)) :
  valid_value_column_check t data_type (Some (item :: items)) sentinel_list
  = Ok tt <->
  Forall (fun r => value_row_valid data_type r /\
                   code_row_valid (item :: items) sentinel_list r) t.
Proof.
  unfold valid_value_column_check.
  set (codes :=
         match sentinel_list with
         | Some sentinels =>
             unique value_eqb (map code (item :: items)) ++
             unique value_eqb (map code sentinels)
         | None => unique value_eqb (map code (item :: items))
         end).
  assert (Hcodes : forall v, In v codes <->
                             In v (permitted_codes (item :: items) sentinel_list)).
  { intros v. unfold codes, permitted_codes.
    destruct sentinel_list as [sentinels|].
    - rewrite !in_app_iff, !(unique_In _ value_eqb_eq). tauto.
    - rewrite app_nil_r, (unique_In _ value_eqb_eq). tauto. }
  assert (Hfirst : forall e,
             (if Nat.ltb 0
                   (List.length
                      (to_table t
                         (if data_type =? "STRING"
                          then fun r => or_kleene (is_null (value_ r))
                                          (equal_value (value_ r)
                                             (Some (VString EmptyString)))
                          else fun r => is_null (value_ r)) unit_id))
              then Raise e else Ok tt) = Ok tt <->
             Forall (value_row_valid data_type) t).
  { intros e. rewrite rows_check_Ok. apply Forall_iff. intros r.
    symmetry. apply value_row_valid_filter. }
  destruct (Nat.ltb 0 (List.length (to_table t _ unit_id))) eqn:E1.
  - cbn [bind]. split; [discriminate|]. intros Hall.
    assert (Hv : Forall (value_row_valid data_type) t).
    { revert Hall. apply Forall_impl. tauto. }
    apply (Hfirst (ValueError [])) in Hv. discriminate.
  - cbn [bind]. fold codes. rewrite rows_check_Ok.
    pose proof (proj1 (Hfirst (ValueError [])) eq_refl) as Hvalid.
    rewrite !Forall_forall in *. split.
    + intros Hall r Hr. split; [now apply Hvalid|].
      destruct (Hvalid r Hr) as [v [Hv _]]. exists v. split; [exact Hv|].
      apply Hcodes. apply is_in_values. rewrite <- Hv. now apply Hall.
    + intros Hall r Hr. destruct (Hall r Hr) as [_ [v [Hv Hin]]].
      rewrite Hv. apply is_in_values. now apply Hcodes.
Qed.

(** X4.  Where the codes of the code list and of the sentinel list are
    strings and the value column holds strings, so that the codes are
    of the type of the column, the value rule with a non-empty code
    list passes exactly when every value is a string (for STRING not
    the empty one) that is the code of an item of the code list or of
    the sentinel list. *)
Theorem valid_value_column_check_with_code_list (t : table)
  (data_type : string) (item : code_list_item) (items : list code_list_item)
  (sentinel_list : option (list code_list_item)) :
  string_codes (item :: items) ->
  string_sentinels sentinel_list ->
  string_column t ->
  (valid_value_column_check t data_type (Some (item :: items)) sentinel_list
   = Ok tt <->
   Forall (fun r => exists s,
               value_ r = Some (VString s) /\
               (data_type = "STRING" -> s <> EmptyString) /\
               In s (code_strings (item :: items) sentinel_list)) t).
Proof.
  intros _ _ Hcolumn.
  rewrite valid_value_column_check_codes.
  unfold string_column in Hcolumn. rewrite !Forall_forall in *.
  split.
  - intros Hall r Hr. destruct (Hall r Hr) as [[v [Hv Hne]] [v' [Hv' Hin]]].
    assert (v' = v) by congruence. subst v'.
    pose proof (Hcolumn r Hr) as Hstring. rewrite Hv in Hstring.
    destruct v as [s| | |]; try contradiction.
    exists s. split; [exact Hv|]. split.
    + intros Hdt Hs. apply (Hne Hdt). now rewrite Hs.
    + unfold code_strings. apply some_values_In.
      apply in_map_iff. exists (VString s). auto.
  - intros Hall r Hr. destruct (Hall r Hr) as [s [Hv [Hne Hin]]].
    split.
    + exists (VString s). split; [exact Hv|].
      intros Hdt Hs. injection Hs as Hs. now apply (Hne Hdt).
    + exists (VString s). split; [exact Hv|].
      unfold code_strings in Hin. apply some_values_In in Hin.
      apply in_map_iff in Hin. destruct Hin as [v [Hvs Hin]].
      destruct v as [s'| | |]; try discriminate.
      simpl in Hvs. injection Hvs as ->. exact Hin.
Qed.

(** ** Uniqueness rules *)

Lemma NoDup_map_Some {A : Type} (l : list A) :
  NoDup (map Some l) <-> NoDup l.
Proof.
  split; [apply NoDup_map_inv|].
  induction 1 as [|x l Hnotin _ IH]; simpl; constructor; [|exact IH].
  rewrite in_map_iff. intros [y [Hy Hin]]. injection Hy as ->. contradiction.
Qed.

Lemma bucket_of_null (ids : list (option string)) :
  List.filter (fun u => selected (equal_str (utf8_slice_codeunits u 1) None))
    ids = [].
Proof.
  induction ids as [|[s|] ids IH]; simpl; [reflexivity | exact IH | exact IH].
Qed.

Lemma bucket_of_character (ids : list (option string)) (c : string) :
  List.filter
    (fun u => selected (equal_str (utf8_slice_codeunits u 1) (Some c))) ids =
  map Some
    (List.filter (fun s => String.eqb (substring 0 1 s) c) (some_values ids)).
Proof.
  induction ids as [|[s|] ids IH]; simpl; [reflexivity| |exact IH].
  destruct (String.eqb (substring 0 1 s) c); simpl; now rewrite IH.
Qed.

Lemma only_unique_identifiers_check_Ok (t : table) :
  only_unique_identifiers_check t = Ok tt <->
  NoDup (some_values (map unit_id t)).
Proof.
  unfold only_unique_identifiers_check, to_table. rewrite filter_true.
  set (ids := map unit_id t).
  rewrite for_each_Ok, Forall_forall.
  assert (Hbucket : forall b,
    (if negb (List.length
                (unique unit_id_eqb
                   (map snd
                      (List.filter
                         (fun r => selected (equal_str (fst r) b))
                         (map (fun u => (utf8_slice_codeunits u 1, u)) ids))))
              =? List.length
                   (List.filter (fun r => selected (equal_str (fst r) b))
                      (map (fun u => (utf8_slice_codeunits u 1, u)) ids)))%nat
     then Raise (ValueError [Text "identifier diff"]) else Ok tt) = Ok tt <->
    NoDup (List.filter
             (fun u => selected (equal_str (utf8_slice_codeunits u 1) b)) ids)).
  { intros b. rewrite bucket_table_identifiers, bucket_table_length.
    rewrite <- (unique_length_NoDup _ unit_id_eqb_eq).
    destruct (Nat.eqb_spec
                (List.length (unique unit_id_eqb
                   (List.filter (fun u => selected
                      (equal_str (utf8_slice_codeunits u 1) b)) ids)))
                (List.length
                   (List.filter (fun u => selected
                      (equal_str (utf8_slice_codeunits u 1) b)) ids)));
      simpl; split; congruence. }
  split.
  - intros Hall.
    apply (NoDup_by_groups
             (fun x y => String.eqb (substring 0 1 x) (substring 0 1 y))).
    + intros x _. apply String.eqb_refl.
    + intros x Hx.
      apply NoDup_map_Some. rewrite <- bucket_of_character.
      apply Hbucket. apply Hall.
      apply (unique_In _ unit_id_eqb_eq). rewrite map_map. cbn [fst].
      apply in_map_iff. exists (Some x). split; [reflexivity|].
      now apply some_values_In.
  - intros Hnd b _. apply Hbucket. destruct b as [c|].
    + rewrite bucket_of_character. apply NoDup_map_Some.
      now apply NoDup_filter.
    + rewrite bucket_of_null. constructor.
Qed.

(** X5.  The FIXED uniqueness rule passes exactly when the non-null
    identifiers of the table are pairwise distinct.  Null identifiers
    fall in no bucket and are never compared: a table of null
    identifiers alone passes, however many rows it has. *)
Theorem only_unique_identifiers_check_passes_iff (t : table) :
  (only_unique_identifiers_check t = Ok tt <->
   NoDup (some_values (map unit_id t))) /\
  (Forall (fun r => unit_id r = None) t ->
   only_unique_identifiers_check t = Ok tt).
Proof.
  split; [apply only_unique_identifiers_check_Ok|].
  intros Hnull. apply only_unique_identifiers_check_Ok.
  induction Hnull as [|r t Hr _ IH]; simpl; [constructor|].
  now rewrite Hr.
Qed.

Lemma status_table_rows (t : table) (d : Z) :
  to_table t (fun r => equal_days (start_epoch_days r) (Some d)) unit_id =
  map unit_id (rows_on d t).
Proof.
  unfold to_table, rows_on. f_equal. apply filter_ext. intros r.
  destruct (start_epoch_days r) as [z|]; simpl; [|reflexivity].
  destruct (Z.eqb z d); reflexivity.
Qed.

Lemma status_table_null (t : table) :
  to_table t (fun r => equal_days (start_epoch_days r) None) unit_id = [].
Proof.
  unfold to_table. induction t as [|r t IH]; simpl; [reflexivity|].
  destruct (start_epoch_days r); exact IH.
Qed.

Lemma rows_on_absent (t : table) (d : Z) :
  ~ In (Some d) (map start_epoch_days t) -> rows_on d t = [].
Proof.
  unfold rows_on. induction t as [|r t IH]; simpl; [reflexivity|].
  intros Hnotin.
  destruct (days_eqb (start_epoch_days r) (Some d)) eqn:E.
  - exfalso. apply Hnotin. left. now apply days_eqb_eq.
  - apply IH. intros H. apply Hnotin. now right.
Qed.

Lemma status_uniquesness_check_Ok (t : table) :
  status_uniquesness_check t = Ok tt <->
  forall d, NoDup (map unit_id (rows_on d t)).
Proof.
  unfold status_uniquesness_check.
  rewrite for_each_Ok, Forall_forall.
  assert (Hdate : forall c,
    (if negb (List.length
                (unique unit_id_eqb
                   (to_table t
                      (fun r => equal_days (start_epoch_days r) c) unit_id))
              =? List.length
                   (to_table t
                      (fun r => equal_days (start_epoch_days r) c) unit_id))%nat
     then Raise (ValueError [Text "status uniqueness fail"]) else Ok tt)
    = Ok tt <->
    NoDup (to_table t (fun r => equal_days (start_epoch_days r) c) unit_id)).
  { intros c. rewrite <- (unique_length_NoDup _ unit_id_eqb_eq).
    destruct (Nat.eqb_spec
                (List.length (unique unit_id_eqb
                   (to_table t
                      (fun r => equal_days (start_epoch_days r) c) unit_id)))
                (List.length
                   (to_table t
                      (fun r => equal_days (start_epoch_days r) c) unit_id)));
      simpl; split; congruence. }
  split.
  - intros Hall d.
    destruct (in_dec (fun a b => Bool.reflect_dec _ _
                        (iff_reflect _ _ (iff_sym (days_eqb_eq a b))))
                (Some d) (map start_epoch_days t)) as [Hin|Hnotin].
    + rewrite <- status_table_rows. apply Hdate. apply Hall.
      apply (unique_In _ days_eqb_eq). unfold to_table.
      now rewrite filter_true.
    + rewrite (rows_on_absent t d Hnotin). constructor.
  - intros Hall c _. apply Hdate. destruct c as [d|].
    + rewrite status_table_rows. apply Hall.
    + rewrite status_table_null. constructor.
Qed.

(** X6.  The STATUS uniqueness rule passes exactly when, on every
    status date, the rows of that date carry pairwise distinct
    identifiers (a null identifier counts as one).  Rows without a
    start are on no date and are never compared. *)
Theorem status_uniquesness_check_passes_iff (t : table) :
  (status_uniquesness_check t = Ok tt <->
   forall d, NoDup (map unit_id (rows_on d t))) /\
  (Forall (fun r => start_epoch_days r = None) t ->
   status_uniquesness_check t = Ok tt).
Proof.
  split; [apply status_uniquesness_check_Ok|].
  intros Hnull. apply status_uniquesness_check_Ok. intros d.
  rewrite rows_on_absent; [constructor|].
  rewrite in_map_iff. intros [r [Hr Hin]].
  rewrite Forall_forall in Hnull. rewrite (Hnull r Hin) in Hr. discriminate.
Qed.

(** ** Batches *)

Lemma firstn_add {A : Type} (a b : nat) (l : list A) :
  firstn (a + b) l = firstn a l ++ firstn b (skipn a l).
Proof.
  revert l. induction a as [|a IH]; intros l; simpl; [reflexivity|].
  destruct l as [|x l]; simpl.
  - now rewrite firstn_nil.
  - now rewrite IH.
Qed.

Lemma concat_slices {A : Type} (l : list A) (n m a : nat) :
  List.concat (map (fun index => firstn n (skipn index l))
              (map (fun k => k * n) (seq a m))) =
  firstn (m * n) (skipn (a * n) l).
Proof.
  revert a. induction m as [|m IH]; intros a; simpl; [reflexivity|].
  rewrite IH, firstn_add, skipn_skipn.
  replace (S a * n) with (n + a * n) by lia. reflexivity.
Qed.

(** X7.  Cut with a positive batch size, a list comes back as batches
    that, put end to end, are the list itself, each batch holding at
    least one and at most [batch_size] elements.  A batch size of zero
    is a [ValueError]. *)
Theorem batch_partition {A : Type} (l : list A) (batch_size : nat) :
  (0 < batch_size ->
   exists batches, batch l batch_size = Ok batches /\
     List.concat batches = l /\
     Forall (fun b => 0 < List.length b <= batch_size) batches) /\
  (batch_size = 0 -> exists e, batch l batch_size = Raise (ValueError e)).
Proof.
  split.
  - intros Hpos. unfold batch, range_step.
    destruct batch_size as [|n]; [lia|].
    set (bs := S n) in *. cbn [bind].
    eexists. split; [reflexivity|].
    pose proof (Nat.div_mod_eq (List.length l + bs - 1) bs) as Hdm.
    pose proof (Nat.mod_upper_bound (List.length l + bs - 1) bs ltac:(lia))
      as Hmod.
    set (q := (List.length l + bs - 1) / bs) in *.
    split.
    + rewrite concat_slices. simpl. apply firstn_all2. nia.
    + apply Forall_forall. intros b Hb.
      apply in_map_iff in Hb. destruct Hb as [index [<- Hindex]].
      apply in_map_iff in Hindex. destruct Hindex as [k [<- Hk]].
      apply in_seq in Hk.
      rewrite length_firstn, length_skipn. nia.
  - intros ->. unfold batch, range_step. cbn [bind]. eexists. reflexivity.
Qed.

(** ** The scan *)

Lemma find_overlap_loop_errors (start_list stop_list : list (option Z))
  (indices : list nat) :
  List.length stop_list = List.length start_list ->
  (forall i, In i indices -> S i < List.length start_list) ->
  (exists b, find_overlap_loop start_list stop_list indices = Ok b) \/
  (find_overlap_loop start_list stop_list indices =
   Raise (TypeError "'>' not supported between instances of 'int' and 'NoneType'") /\
   exists i, nth_error start_list (S i) = Some None).
Proof.
  intros Hlen. induction indices as [|i rest IH]; intros Hrange; simpl.
  - left. now exists false.
  - assert (Hi : S i < List.length start_list) by (apply Hrange; now left).
    destruct (nth_error stop_list i) as [c|] eqn:Hstop.
    2: { apply nth_error_None in Hstop. lia. }
    destruct c as [stop_i|]; [|left; now exists true].
    rewrite Nat.add_1_r.
    destruct (nth_error start_list (S i)) as [c|] eqn:Hstart.
    2: { apply nth_error_None in Hstart. lia. }
    destruct c as [start_next|].
    + destruct (stop_i >? start_next)%Z; [left; now exists true|].
      apply IH. intros j Hj. apply Hrange. now right.
    + right. split; [reflexivity|]. now exists i.
Qed.

(** X9.  On two lists of one length the scan never leaves the lists
    (no [IndexError]): it answers, or it raises the [TypeError] of a
    comparison with a null start, and then some start after the first
    is null.  Fewer than two intervals never overlap, whatever they
    hold. *)
Theorem find_overlap_errors (start_list stop_list : list (option Z)) :
  List.length stop_list = List.length start_list ->
  ((exists b, find_overlap start_list stop_list = Ok b) \/
   (find_overlap start_list stop_list =
    Raise (TypeError "'>' not supported between instances of 'int' and 'NoneType'") /\
    exists i, nth_error start_list (S i) = Some None)) /\
  (List.length start_list <= 1 ->
   find_overlap start_list stop_list = Ok false).
Proof.
  intros Hlen. split.
  - unfold find_overlap. apply find_overlap_loop_errors; [exact Hlen|].
    intros i Hi. apply in_seq in Hi. lia.
  - intros Hshort. unfold find_overlap.
    replace (List.length start_list - 1) with 0 by lia. reflexivity.
Qed.

(** ** What the overlap rule decides *)

Lemma temporal_rule_intervals (t : table) :
  event_temporal_variables_check t = Ok tt \/
  accumulated_temporal_variables_check t = Ok tt ->
  Forall interval_row t.
Proof.
  unfold event_temporal_variables_check, accumulated_temporal_variables_check.
  rewrite !to_table_nonempty.
  intros [H|H];
    (destruct (existsb _ t) eqn:Hex; [discriminate|]);
    rewrite existsb_false_Forall in Hex;
    revert Hex; apply Forall_impl; intros r; unfold interval_row;
    destruct (start_epoch_days r) as [s|], (stop_epoch_days r) as [e|];
    simpl; try discriminate.
  - rewrite Z.geb_leb. destruct (Z.leb_spec e s); [discriminate|].
    intros _. exists s. split; [reflexivity|]. intros e' He'.
    injection He' as <-. lia.
  - intros _. exists s. split; [reflexivity|]. discriminate.
  - rewrite Z.geb_leb. destruct (Z.leb_spec e s); [discriminate|].
    intros _. exists s. split; [reflexivity|]. intros e' He'.
    injection He' as <-. lia.
Qed.

Lemma overlap_at_tail (a : row) (l : list row) (i : nat) :
  overlap_at (map start_epoch_days (a :: l)) (map stop_epoch_days (a :: l))
    (S i) <->
  overlap_at (map start_epoch_days l) (map stop_epoch_days l) i.
Proof.
  unfold overlap_at. simpl. split; intros [Hlt H]; (split; [lia | exact H]).
Qed.

Lemma chained_no_overlap_at (l : list row) :
  Forall (fun r => start_epoch_days r <> None) l ->
  (chained l <->
   ~ exists i, overlap_at (map start_epoch_days l) (map stop_epoch_days l) i).
Proof.
  induction 1 as [|a l Ha Hl IH].
  - simpl. split; [|trivial]. intros _ [i [Hlt _]]. simpl in Hlt. lia.
  - destruct l as [|b rest].
    + simpl. split; [|trivial]. intros _ [i [Hlt _]]. simpl in Hlt. lia.
    + cbn [chained]. rewrite IH. split.
      * intros [[e [s [He [Hs Hle]]]] Hrest] [[|i] Hov].
        -- destruct Hov as [_ [Hnull|[e' [s' [He' [Hs' Hgt]]]]]];
             simpl in *; [congruence|].
           assert (e' = e) by congruence. assert (s' = s) by congruence. lia.
        -- apply Hrest. exists i. now apply overlap_at_tail in Hov.
      * intros Hnone. split.
        -- inversion Hl as [|? ? Hb _]; subst.
           destruct (stop_epoch_days a) as [e|] eqn:He.
           ++ destruct (start_epoch_days b) as [s|] eqn:Hs; [|contradiction].
              exists e, s. split; [exact He|]. split; [exact Hs|].
              destruct (Z.le_gt_cases e s) as [Hle|Hgt]; [exact Hle|].
              exfalso. apply Hnone. exists 0. split; [simpl; lia|].
              right. exists e, s. simpl. rewrite He, Hs. repeat split. lia.
           ++ exfalso. apply Hnone. exists 0. split; [simpl; lia|].
              left. simpl. now rewrite He.
        -- intros [i Hov]. apply Hnone. exists (S i).
           now apply overlap_at_tail.
Qed.

Lemma chained_ordered_pairs (l : list row) :
  Forall interval_row l -> chained l -> ForallOrdPairs ends_before l.
Proof.
  induction 1 as [|a l Ha Hl IH]; intros Hchain; [constructor|].
  destruct l as [|b rest]; [constructor; constructor|].
  destruct Hchain as [Hab Hrest].
  specialize (IH Hrest). constructor; [|exact IH].
  constructor; [exact Hab|].
  inversion IH as [|? ? Hb _]; subst.
  inversion Hl as [|? ? Hvalid _]; subst.
  revert Hb. apply Forall_impl. intros c [e' [s' [He' [Hs' Hle']]]].
  destruct Hab as [e [s [He [Hs Hle]]]].
  destruct Hvalid as [sb [Hsb Hlt]].
  specialize (Hlt e' He'). assert (sb = s) by congruence. subst sb.
  exists e, s'. repeat split; [exact He | exact Hs' | lia].
Qed.

Lemma sorted_disjoint_chained (l : list row) :
  Forall interval_row l -> StronglySorted row_le l ->
  ForallOrdPairs disjoint l -> chained l.
Proof.
  induction 1 as [|a l Ha Hl IH]; intros Hsorted Hpairs; [exact I|].
  destruct l as [|b rest]; [exact I|].
  inversion Hsorted as [|? ? Hsorted' Hle]; subst.
  inversion Hpairs as [|? ? Hfirst Hpairs']; subst.
  split; [|now apply IH].
  inversion Hfirst as [|? ? [Hab|Hba] _]; subst; [exact Hab|].
  exfalso.
  inversion Hle as [|? ? Hab _]; subst. unfold row_le in Hab.
  inversion Hl as [|? ? [sb [Hsb Hlt]] _]; subst.
  destruct Hba as [e [s [He [Hs Hes]]]].
  specialize (Hlt e He).
  rewrite Hs, Hsb in Hab. simpl in Hab. apply Z.leb_le in Hab. lia.
Qed.

Lemma ForallOrdPairs_Permutation {A : Type} (R : A -> A -> Prop)
  (l l' : list A) :
  (forall a b, R a b -> R b a) ->
  Permutation l l' -> ForallOrdPairs R l -> ForallOrdPairs R l'.
Proof.
  intros Hsym. induction 1 as [|x l l' Hperm IH|x y l|l l' l'' _ IH1 _ IH2];
    intros H.
  - exact H.
  - inversion H as [|? ? Hx Hl]; subst. constructor; [|now apply IH].
    now rewrite <- Hperm.
  - inversion H as [|? ? Hy Hl]; subst.
    inversion Hl as [|? ? Hx Hl']; subst.
    inversion Hy as [|? ? Hyx Hy']; subst.
    constructor; [constructor; [now apply Hsym | exact Hx]|].
    constructor; assumption.
  - auto.
Qed.

Lemma disjoint_sym (a b : row) : disjoint a b -> disjoint b a.
Proof. unfold disjoint. tauto. Qed.

Lemma rows_of_absent (t : table) (u : option string) :
  ~ In u (map unit_id t) -> rows_of u t = [].
Proof.
  unfold rows_of. induction t as [|r t IH]; simpl; [reflexivity|].
  intros Hnotin. destruct (unit_id_eqb (unit_id r) u) eqn:E.
  - exfalso. apply Hnotin. left. now apply unit_id_eqb_eq.
  - apply IH. intros H. apply Hnotin. now right.
Qed.

Lemma no_overlap_disjoint (t : table) (u : option string) :
  Forall interval_row t ->
  (no_overlap t u <-> ForallOrdPairs disjoint (rows_of u t)).
Proof.
  intros Hrows.
  assert (Hstarts : Forall (fun r => start_epoch_days r <> None) t).
  { revert Hrows. apply Forall_impl. intros r [s [Hs _]]. congruence. }
  assert (Hsub : Forall interval_row (intervals_of u t)).
  { apply Forall_forall. intros r Hr. unfold intervals_of in Hr.
    apply (proj1 (sort_by_start_In _ _)) in Hr. apply filter_In in Hr.
    rewrite Forall_forall in Hrows. now apply Hrows. }
  assert (Hsub' : Forall (fun r => start_epoch_days r <> None)
                    (intervals_of u t)).
  { revert Hsub. apply Forall_impl. intros r [s [Hs _]]. congruence. }
  unfold no_overlap.
  destruct (identifier_overlaps_spec t u Hstarts) as [b [Hb Hiff]].
  rewrite Hb.
  assert (Hchain : Ok b = Ok false <-> chained (intervals_of u t)).
  { rewrite (chained_no_overlap_at _ Hsub'), <- Hiff.
    destruct b; split; congruence. }
  rewrite Hchain. split.
  - intros H. apply (chained_ordered_pairs _ Hsub) in H.
    apply (ForallOrdPairs_Permutation disjoint (intervals_of u t)).
    + apply disjoint_sym.
    + apply sort_by_start_Permutation.
    + clear -H. induction H as [|a l Ha _ IH]; constructor; [|exact IH].
      revert Ha. apply Forall_impl. intros c Hc. now left.
  - intros H. apply sorted_disjoint_chained.
    + exact Hsub.
    + apply sort_by_start_sorted.
    + apply (ForallOrdPairs_Permutation disjoint (rows_of u t)).
      * apply disjoint_sym.
      * symmetry. apply sort_by_start_Permutation.
      * exact H.
Qed.

Lemma no_overlapping_timespans_check_disjoint (t : table) :
  Forall interval_row t ->
  (no_overlapping_timespans_check t = Ok tt <->
   forall u, ForallOrdPairs disjoint (rows_of u t)).
Proof.
  intros Hrows. unfold no_overlapping_timespans_check.
  rewrite (no_overlapping_timespans_check_with_Ok _ _ BATCH_SIZE_positive).
  split.
  - intros H u.
    destruct (in_dec (fun a b => Bool.reflect_dec _ _
                        (iff_reflect _ _ (iff_sym (unit_id_eqb_eq a b))))
                u (map unit_id t)) as [Hin|Hnotin].
    + apply (no_overlap_disjoint t u Hrows). now apply H.
    + rewrite (rows_of_absent t u Hnotin). constructor.
  - intros H u _. apply (no_overlap_disjoint t u Hrows). apply H.
Qed.

(** X8.  Where the overlap rule runs, that is on a table that passed
    the temporal-field rule of EVENT or of ACCUMULATED, the rule passes
    exactly when any two rows of one identifier are disjoint intervals:
    one of the two is closed and ends no later than the other starts.
    The answer does not depend on the order of the rows, nor on how
    rows of equal start are ordered by the sort. *)
Theorem no_overlapping_timespans_check_pairwise_disjoint (t : table) :
  event_temporal_variables_check t = Ok tt \/
  accumulated_temporal_variables_check t = Ok tt ->
  (no_overlapping_timespans_check t = Ok tt <->
   forall u, ForallOrdPairs disjoint (rows_of u t)).
Proof.
  intros Hrule. apply no_overlapping_timespans_check_disjoint.
  now apply temporal_rule_intervals.
Qed.

(** ** What validate_dataset accepts *)

Lemma status_temporal_variables_check_Ok (t : table) :
  status_temporal_variables_check t = Ok tt <-> Forall status_row_valid t.
Proof.
  unfold status_temporal_variables_check.
  destruct (0 <? List.length (to_table t _ unit_id))%nat eqn:E1; cbn [bind].
  - split; [discriminate|]. intros Hall.
    rewrite to_table_nonempty in E1. apply existsb_exists in E1.
    destruct E1 as [r [Hr Hsel]].
    rewrite Forall_forall in Hall. destruct (Hall r Hr) as [d [Hs He]].
    rewrite Hs, He in Hsel. discriminate.
  - rewrite rows_check_Ok.
    rewrite to_table_nonempty, existsb_false_Forall in E1.
    rewrite !Forall_forall in *. split.
    + intros Hall r Hr. specialize (Hall r Hr). specialize (E1 r Hr).
      cbv beta in E1. unfold status_row_valid.
      destruct (start_epoch_days r) as [s|], (stop_epoch_days r) as [e|];
        simpl in *; try discriminate.
      destruct (Z.eqb_spec s e) as [->|Hne]; simpl in Hall; [|discriminate].
      now exists e.
    + intros Hall r Hr. destruct (Hall r Hr) as [d [Hs He]].
      rewrite Hs, He. simpl. now rewrite Z.eqb_refl.
Qed.

Lemma event_temporal_variables_check_Ok (t : table) :
  event_temporal_variables_check t = Ok tt <-> Forall interval_row t.
Proof.
  unfold event_temporal_variables_check. rewrite rows_check_Ok.
  apply Forall_iff. intros r. unfold interval_row.
  destruct (start_epoch_days r) as [s|], (stop_epoch_days r) as [e|]; simpl.
  - rewrite Z.geb_leb. destruct (Z.leb_spec e s) as [Hle|Hgt]; simpl.
    + split; [discriminate|]. intros [s' [Hs Hlt]].
      injection Hs as <-. specialize (Hlt e eq_refl). lia.
    + split; [|reflexivity]. intros _. exists s. split; [reflexivity|].
      intros e' He'. injection He' as <-. lia.
  - split; [|reflexivity]. intros _. exists s. split; [reflexivity|].
    discriminate.
  - split; [discriminate|]. intros [s [Hs _]]. discriminate.
  - split; [discriminate|]. intros [s [Hs _]]. discriminate.
Qed.

Ltac rule_fails Hinv :=
  split; [discriminate|];
  let H := fresh "H" in
  intros H; repeat (apply Hinv in H; destruct H as [? H]); congruence.

Ltac two_rules o a b Hinv :=
  destruct (o a) as [[]|?] eqn:?; cbn [app snd];
  [ destruct (o b) as [[]|?] eqn:?; cbn [app snd];
    [ split; [intros _; repeat constructor; assumption | reflexivity]
    | rule_fails Hinv ]
  | rule_fails Hinv ].

Lemma validate_dataset_Ok (parquet_path : table) (measure_data_type : string)
  (code_list sentinel_list : option (list code_list_item))
  (temporality_type : string) :
  snd (validate_dataset parquet_path measure_data_type code_list
         sentinel_list temporality_type []) = Ok tt <->
  Forall (fun r => rule_outcome parquet_path measure_data_type code_list
                     sentinel_list r = Ok tt)
         (rule_order temporality_type).
Proof.
  unfold validate_dataset, rule_order, tbind, call, tret.
  name_outcomes o parquet_path measure_data_type code_list sentinel_list.
  assert (Hinv : forall a l, Forall (fun r => o r = Ok tt) (a :: l) ->
                             o a = Ok tt /\ Forall (fun r => o r = Ok tt) l)
    by (intros a l H; inversion H; auto).
  destruct (o ValidUnitId) as [[]|e1] eqn:E1; cbn [app snd];
    [|rule_fails Hinv].
  destruct (o ValidValueColumn) as [[]|e2] eqn:E2; cbn [app snd];
    [|rule_fails Hinv].
  destruct (temporality_type =? "FIXED").
  { two_rules o FixedTemporalVariables OnlyUniqueIdentifiers Hinv. }
  destruct (temporality_type =? "STATUS").
  { two_rules o StatusTemporalVariables StatusUniqueness Hinv. }
  destruct (temporality_type =? "ACCUMULATED").
  { two_rules o AccumulatedTemporalVariables NoOverlappingTimespans Hinv. }
  destruct (temporality_type =? "EVENT").
  { two_rules o EventTemporalVariables NoOverlappingTimespans Hinv. }
  cbn [snd]. split; [intros _; repeat constructor; assumption | reflexivity].
Qed.

Lemma Forall_four {A : Type} (P : A -> Prop) (a b c d : A) :
  Forall P [a; b; c; d] <-> P a /\ P b /\ P c /\ P d.
Proof.
  split.
  - intros H. inversion H as [|? ? Ha H1]; subst.
    inversion H1 as [|? ? Hb H2]; subst.
    inversion H2 as [|? ? Hc H3]; subst.
    inversion H3; subst. auto.
  - intros [Ha [Hb [Hc Hd]]]. repeat constructor; assumption.
Qed.

Lemma some_values_all (ids : list (option string)) :
  Forall (fun u => u <> None) ids -> map Some (some_values ids) = ids.
Proof.
  induction 1 as [|[u|] ids Hu _ IH]; simpl; [reflexivity| |contradiction].
  now rewrite IH.
Qed.

Lemma valid_identifiers_non_null (t : table) :
  Forall unit_id_row_valid t -> Forall (fun u => u <> None) (map unit_id t).
Proof.
  intros H. apply Forall_forall. intros u Hu.
  apply in_map_iff in Hu. destruct Hu as [r [<- Hr]].
  rewrite Forall_forall in H. destruct (H r Hr) as [u [Hu _]]. congruence.
Qed.

(** X10.  A FIXED table is accepted exactly when every identifier is a
    non-empty string, the value rule passes, every row has a null
    start and a non-null stop, and no identifier occurs twice. *)
Theorem validate_dataset_accepts_fixed (t : table) (measure_data_type : string)
  (code_list sentinel_list : option (list code_list_item)) :
  snd (validate_dataset t measure_data_type code_list sentinel_list
         "FIXED" []) = Ok tt <->
  Forall unit_id_row_valid t /\
  valid_value_column_check t measure_data_type code_list sentinel_list
  = Ok tt /\
  Forall fixed_row_valid t /\
  NoDup (map unit_id t).
Proof.
  rewrite validate_dataset_Ok.
  change (rule_order "FIXED")
    with [ValidUnitId; ValidValueColumn; FixedTemporalVariables;
          OnlyUniqueIdentifiers].
  rewrite Forall_four. cbn [rule_outcome].
  rewrite valid_unit_id_check_Ok, fixed_temporal_variables_check_Ok,
    only_unique_identifiers_check_Ok.
  split; intros [Hids [Hvalue [Hrows Hunique]]]; repeat split; try assumption.
  - rewrite <- (some_values_all (map unit_id t))
      by now apply valid_identifiers_non_null.
    now apply NoDup_map_Some.
  - apply NoDup_map_Some.
    rewrite (some_values_all (map unit_id t))
      by now apply valid_identifiers_non_null.
    exact Hunique.
Qed.

(** X11.  A STATUS table is accepted exactly when every identifier is
    a non-empty string, the value rule passes, every row has a start
    and a stop on one day, and on no day an identifier occurs twice. *)
Theorem validate_dataset_accepts_status (t : table) (measure_data_type : string)
  (code_list sentinel_list : option (list code_list_item)) :
  snd (validate_dataset t measure_data_type code_list sentinel_list
         "STATUS" []) = Ok tt <->
  Forall unit_id_row_valid t /\
  valid_value_column_check t measure_data_type code_list sentinel_list
  = Ok tt /\
  Forall status_row_valid t /\
  (forall d, NoDup (map unit_id (rows_on d t))).
Proof.
  rewrite validate_dataset_Ok.
  change (rule_order "STATUS")
    with [ValidUnitId; ValidValueColumn; StatusTemporalVariables;
          StatusUniqueness].
  rewrite Forall_four. cbn [rule_outcome].
  rewrite valid_unit_id_check_Ok, status_temporal_variables_check_Ok,
    status_uniquesness_check_Ok.
  reflexivity.
Qed.

(** X12.  An ACCUMULATED table is accepted exactly when every
    identifier is a non-empty string, the value rule passes, every row
    has a start and a later stop, and any two rows of one identifier
    are disjoint intervals. *)
Theorem validate_dataset_accepts_accumulated (t : table)
  (measure_data_type : string)
  (code_list sentinel_list : option (list code_list_item)) :
  snd (validate_dataset t measure_data_type code_list sentinel_list
         "ACCUMULATED" []) = Ok tt <->
  Forall unit_id_row_valid t /\
  valid_value_column_check t measure_data_type code_list sentinel_list
  = Ok tt /\
  Forall accumulated_row_valid t /\
  (forall u, ForallOrdPairs disjoint (rows_of u t)).
Proof.
  rewrite validate_dataset_Ok.
  change (rule_order "ACCUMULATED")
    with [ValidUnitId; ValidValueColumn; AccumulatedTemporalVariables;
          NoOverlappingTimespans].
  rewrite Forall_four. cbn [rule_outcome].
  rewrite valid_unit_id_check_Ok.
  assert (Hiff : accumulated_temporal_variables_check t = Ok tt ->
                 (no_overlapping_timespans_check t = Ok tt <->
                  forall u, ForallOrdPairs disjoint (rows_of u t))).
  { intros H. apply no_overlapping_timespans_check_disjoint.
    apply temporal_rule_intervals. now right. }
  split.
  - intros [Hids [Hvalue [Hrows Hover]]]. repeat split; try assumption.
    + now apply accumulated_temporal_variables_check_Ok.
    + now apply Hiff.
  - intros [Hids [Hvalue [Hrows Hover]]].
    apply accumulated_temporal_variables_check_Ok in Hrows.
    repeat split; try assumption. now apply Hiff.
Qed.

(** X13.  An EVENT table is accepted exactly when every identifier is a
    non-empty string, the value rule passes, every row has a start and
    a stop that is null or later than the start, and any two rows of
    one identifier are disjoint intervals; so at most one row of an
    identifier is open, and it starts after all the others end. *)
Theorem validate_dataset_accepts_event (t : table) (measure_data_type : string)
  (code_list sentinel_list : option (list code_list_item)) :
  snd (validate_dataset t measure_data_type code_list sentinel_list
         "EVENT" []) = Ok tt <->
  Forall unit_id_row_valid t /\
  valid_value_column_check t measure_data_type code_list sentinel_list
  = Ok tt /\
  Forall interval_row t /\
  (forall u, ForallOrdPairs disjoint (rows_of u t)).
Proof.
  rewrite validate_dataset_Ok.
  change (rule_order "EVENT")
    with [ValidUnitId; ValidValueColumn; EventTemporalVariables;
          NoOverlappingTimespans].
  rewrite Forall_four. cbn [rule_outcome].
  rewrite valid_unit_id_check_Ok, event_temporal_variables_check_Ok.
  split.
  - intros [Hids [Hvalue [Hrows Hover]]]. repeat split; try assumption.
    now apply no_overlapping_timespans_check_disjoint.
  - intros [Hids [Hvalue [Hrows Hover]]]. repeat split; try assumption.
    now apply no_overlapping_timespans_check_disjoint.
Qed.

(** X14.  A temporality type other than the four the dispatcher names,
    be it only for the case of its letters, is not refused: the two
    column rules run and no temporal, uniqueness or overlap rule does,
    so the table is accepted as soon as its identifiers and values
    are valid. *)
Theorem validate_dataset_unknown_temporality_type (t : table)
  (measure_data_type : string)
  (code_list sentinel_list : option (list code_list_item))
  (temporality_type : string) :
  known_temporality_type temporality_type = false ->
  (snd (validate_dataset t measure_data_type code_list sentinel_list
          temporality_type []) = Ok tt <->
   Forall unit_id_row_valid t /\
   valid_value_column_check t measure_data_type code_list sentinel_list
   = Ok tt) /\
  (forall r,
      In r (fst (validate_dataset t measure_data_type code_list sentinel_list
                   temporality_type [])) ->
      r = ValidUnitId \/ r = ValidValueColumn).
Proof.
  unfold known_temporality_type. rewrite !orb_false_iff.
  intros [[[H1 H2] H3] H4]. split.
  - rewrite validate_dataset_Ok. unfold rule_order.
    rewrite H1, H2, H3, H4. cbn [app].
    rewrite <- valid_unit_id_check_Ok. split.
    + intros H. inversion H as [|? ? Ha H']; subst.
      inversion H' as [|? ? Hb _]; subst. auto.
    + intros [Ha Hb]. repeat constructor; assumption.
  - unfold validate_dataset, tbind, call, tret.
    rewrite H1, H2, H3, H4.
    destruct (valid_unit_id_check t) as [[]|e1]; cbn [app fst].
    + destruct (valid_value_column_check _ _ _ _) as [[]|e2]; cbn [app fst];
        intros r [<-|[<-|[]]]; auto.
    + intros r [<-|[]]. auto.
Qed.

(** ** The bounds of the coverage *)

Lemma fold_left_min_spec (l : list Z) (x : Z) :
  In (fold_left Z.min l x) (x :: l) /\
  forall z, In z (x :: l) -> (fold_left Z.min l x <= z)%Z.
Proof.
  revert x. induction l as [|y l IH]; intros x; simpl.
  - split; [now left|]. intros z [<-|[]]. lia.
  - destruct (IH (Z.min x y)) as [Hin Hle]. split.
    + destruct Hin as [Hin|Hin]; [|now right; right].
      rewrite <- Hin. destruct (Z.min_spec x y) as [[_ ->]|[_ ->]]; auto.
    + intros z [<-|[<-|Hz]].
      * specialize (Hle (Z.min x y) (or_introl eq_refl)). lia.
      * specialize (Hle (Z.min x y) (or_introl eq_refl)). lia.
      * apply Hle. now right.
Qed.

Lemma fold_left_max_spec (l : list Z) (x : Z) :
  In (fold_left Z.max l x) (x :: l) /\
  forall z, In z (x :: l) -> (z <= fold_left Z.max l x)%Z.
Proof.
  revert x. induction l as [|y l IH]; intros x; simpl.
  - split; [now left|]. intros z [<-|[]]. lia.
  - destruct (IH (Z.max x y)) as [Hin Hle]. split.
    + destruct Hin as [Hin|Hin]; [|now right; right].
      rewrite <- Hin. destruct (Z.max_spec x y) as [[_ ->]|[_ ->]]; auto.
    + intros z [<-|[<-|Hz]].
      * specialize (Hle (Z.max x y) (or_introl eq_refl)). lia.
      * specialize (Hle (Z.max x y) (or_introl eq_refl)). lia.
      * apply Hle. now right.
Qed.

Lemma compute_min_spec (column : list (option Z)) :
  match compute_min column with
  | Some m => In (Some m) column /\
              forall z, In (Some z) column -> (m <= z)%Z
  | None => forall z, ~ In (Some z) column
  end.
Proof.
  unfold compute_min.
  destruct (some_values column) as [|x l] eqn:E.
  - intros z Hz. apply some_values_In in Hz. rewrite E in Hz. exact Hz.
  - destruct (fold_left_min_spec l x) as [Hin Hle]. split.
    + apply some_values_In. now rewrite E.
    + intros z Hz. apply Hle. rewrite <- E. now apply some_values_In.
Qed.

Lemma compute_max_spec (column : list (option Z)) :
  match compute_max column with
  | Some m => In (Some m) column /\
              forall z, In (Some z) column -> (z <= m)%Z
  | None => forall z, ~ In (Some z) column
  end.
Proof.
  unfold compute_max.
  destruct (some_values column) as [|x l] eqn:E.
  - intros z Hz. apply some_values_In in Hz. rewrite E in Hz. exact Hz.
  - destruct (fold_left_max_spec l x) as [Hin Hle]. split.
    + apply some_values_In. now rewrite E.
    + intros z Hz. apply Hle. rewrite <- E. now apply some_values_In.
Qed.

Lemma epoch_date_string_Ok (d : Z) (s : string) :
  epoch_date_string (Some d) = Ok s -> s = date_string d.
Proof.
  unfold epoch_date_string. destruct (_ && _); congruence.
Qed.

(** The least and the greatest of the cells of two columns, as the
    summary takes them. *)
Lemma least_of_columns (starts stops : list (option Z)) (lo : Z) :
  py_min (some_values [compute_min starts; compute_min stops]) = Ok lo ->
  In (Some lo) (starts ++ stops) /\
  forall z, In (Some z) (starts ++ stops) -> (lo <= z)%Z.
Proof.
  pose proof (compute_min_spec starts) as Ha.
  pose proof (compute_min_spec stops) as Hb.
  destruct (compute_min starts) as [a|], (compute_min stops) as [b|];
    simpl; intros H; try discriminate; injection H as <-;
    setoid_rewrite in_app_iff.
  - destruct Ha as [Ha Hale], Hb as [Hb Hble]. split.
    + destruct (Z.min_spec a b) as [[_ ->]|[_ ->]]; auto.
    + intros z [Hz|Hz]; [apply Hale in Hz | apply Hble in Hz]; lia.
  - destruct Ha as [Ha Hale]. split; [auto|].
    intros z [Hz|Hz]; [now apply Hale | now apply Hb in Hz].
  - destruct Hb as [Hb Hble]. split; [auto|].
    intros z [Hz|Hz]; [now apply Ha in Hz | now apply Hble].
Qed.

Lemma greatest_of_columns (starts stops : list (option Z)) (hi : Z) :
  py_max (some_values [compute_max starts; compute_max stops]) = Ok hi ->
  In (Some hi) (starts ++ stops) /\
  forall z, In (Some z) (starts ++ stops) -> (z <= hi)%Z.
Proof.
  pose proof (compute_max_spec starts) as Ha.
  pose proof (compute_max_spec stops) as Hb.
  destruct (compute_max starts) as [a|], (compute_max stops) as [b|];
    simpl; intros H; try discriminate; injection H as <-;
    setoid_rewrite in_app_iff.
  - destruct Ha as [Ha Hale], Hb as [Hb Hble]. split.
    + destruct (Z.max_spec a b) as [[_ ->]|[_ ->]]; auto.
    + intros z [Hz|Hz]; [apply Hale in Hz | apply Hble in Hz]; lia.
  - destruct Ha as [Ha Hale]. split; [auto|].
    intros z [Hz|Hz]; [now apply Hale | now apply Hb in Hz].
  - destruct Hb as [Hb Hble]. split; [auto|].
    intros z [Hz|Hz]; [now apply Ha in Hz | now apply Hble].
Qed.

(** X15.  For FIXED the summary, when it returns, has the literal
    start 1900-01-01 whatever the table holds, no status dates, and as
    latest date the date of the greatest non-null stop; the start
    column is not read. *)
Theorem get_temporal_data_fixed (t : table) (td : temporal_data) :
  get_temporal_data t "FIXED" = Ok td ->
  td_start td = "1900-01-01" /\
  td_statusDates td = None /\
  exists hi, td_latest td = date_string hi /\
             In (Some hi) (map stop_epoch_days t) /\
             forall z, In (Some z) (map stop_epoch_days t) -> (z <= hi)%Z.
Proof.
  unfold get_temporal_data. cbn [String.eqb Ascii.eqb Bool.eqb].
  pose proof (compute_max_spec (map stop_epoch_days t)) as Hmax.
  destruct (compute_max (map stop_epoch_days t)) as [hi|];
    [|cbn [epoch_date_string bind]; discriminate].
  destruct (epoch_date_string (Some hi)) as [s|e] eqn:Es; cbn [bind];
    [|discriminate].
  intros H. injection H as <-. cbn [td_start td_latest td_statusDates fst snd].
  repeat split. exists hi. split; [now apply epoch_date_string_Ok|].
  exact Hmax.
Qed.

(** X16.  For a temporality type other than FIXED the summary, when it
    returns, has as start the date of the least and as latest the date
    of the greatest non-null cell of the start and stop columns taken
    together; it holds status dates for STATUS and for no other type. *)
Theorem get_temporal_data_bounds (t : table) (temporality_type : string)
  (td : temporal_data) :
  (temporality_type =? "FIXED") = false ->
  get_temporal_data t temporality_type = Ok td ->
  (exists lo hi,
      td_start td = date_string lo /\ td_latest td = date_string hi /\
      In (Some lo) (day_cells t) /\ In (Some hi) (day_cells t) /\
      forall z, In (Some z) (day_cells t) -> (lo <= z <= hi)%Z) /\
  is_some (td_statusDates td) = (temporality_type =? "STATUS").
Proof.
  intros Hfixed. unfold get_temporal_data, compute_min_max, day_cells.
  rewrite Hfixed.
  destruct (py_min _) as [lo|e] eqn:Hlo; cbn [bind]; [|discriminate].
  destruct (py_max _) as [hi|e] eqn:Hhi; cbn [bind]; [|discriminate].
  destruct (epoch_date_string (Some lo)) as [s1|e] eqn:E1; cbn [bind];
    [|discriminate].
  destruct (epoch_date_string (Some hi)) as [s2|e] eqn:E2; cbn [bind];
    [|discriminate].
  apply epoch_date_string_Ok in E1, E2. subst s1 s2.
  destruct (least_of_columns _ _ _ Hlo) as [Hlo_in Hlo_le].
  destruct (greatest_of_columns _ _ _ Hhi) as [Hhi_in Hhi_le].
  assert (Hbounds : exists lo0 hi0,
             date_string lo = date_string lo0 /\
             date_string hi = date_string hi0 /\
             In (Some lo0) (map start_epoch_days t ++ map stop_epoch_days t) /\
             In (Some hi0) (map start_epoch_days t ++ map stop_epoch_days t) /\
             forall z,
               In (Some z) (map start_epoch_days t ++ map stop_epoch_days t) ->
               (lo0 <= z <= hi0)%Z).
  { exists lo, hi. repeat split; auto. }
  destruct (temporality_type =? "STATUS").
  - destruct (map_result _ _) as [dates|e]; cbn [bind]; [|discriminate].
    intros H. injection H as <-. split; [exact Hbounds | reflexivity].
  - intros H. injection H as <-. split; [exact Hbounds | reflexivity].
Qed.

(** ** The update of the metadata *)

Lemma status_dates_present (t : table) (temporality_type : string)
  (td : temporal_data) :
  get_temporal_data t temporality_type = Ok td ->
  is_some (td_statusDates td) = (temporality_type =? "STATUS").
Proof.
  unfold get_temporal_data.
  destruct (if temporality_type =? "FIXED" then _ else _) as [p|e];
    cbn [bind]; [|discriminate].
  destruct (temporality_type =? "STATUS").
  - destruct (map_result _ _) as [dates|e]; cbn [bind]; [|discriminate].
    intros H. now injection H as <-.
  - intros H. now injection H as <-.
Qed.

(** X17.  The update raises only the [KeyError] of the missing
    statusDates, and it raises it exactly when the metadata say STATUS
    while the summary was computed for another temporality type.  The
    coverage start and latest are written into the revision in either
    case, before the key is read. *)
Theorem metadata_update_missing_status_dates (t : table)
  (temporality_type : string) (td : temporal_data) (md : metadata) :
  get_temporal_data t temporality_type = Ok td ->
  let '(md', td', raised) := metadata_update_temporal_coverage md td in
  (raised = Ok tt \/ raised = Raise (KeyError "statusDates")) /\
  (raised = Raise (KeyError "statusDates") <->
   temporalityType md = "STATUS" /\ temporality_type <> "STATUS") /\
  temporalCoverageStart (dataRevision md') = Some (td_start td) /\
  temporalCoverageLatest (dataRevision md') = Some (td_latest td) /\
  temporalityType md' = temporalityType md.
Proof.
  intros Htd. apply status_dates_present in Htd.
  unfold metadata_update_temporal_coverage.
  destruct (String.eqb_spec (temporalityType md) "STATUS") as [Hmd|Hmd].
  - destruct (td_statusDates td) as [l|]; simpl in Htd.
    + symmetry in Htd. apply String.eqb_eq in Htd.
      repeat split; auto; try discriminate.
      intros [_ H]. contradiction.
    + symmetry in Htd. apply String.eqb_neq in Htd.
      repeat split; auto.
  - repeat split; auto; try discriminate. intros [H _]. contradiction.
Qed.

Lemma insert_string_Permutation (s : string) (l : list string) :
  Permutation (insert_string s l) (s :: l).
Proof.
  induction l as [|a l IH]; simpl; [reflexivity|].
  destruct (String.leb s a); [reflexivity|].
  rewrite IH. apply perm_swap.
Qed.

Lemma sort_strings_Permutation (l : list string) :
  Permutation (sort_strings l) l.
Proof.
  induction l as [|a l IH]; simpl; [reflexivity|].
  rewrite insert_string_Permutation. now apply perm_skip.
Qed.

Lemma insert_string_Sorted (s : string) (l : list string) :
  Sorted string_le l -> Sorted string_le (insert_string s l).
Proof.
  induction 1 as [|a l Hsorted IH Hhd]; simpl.
  - repeat constructor.
  - destruct (String.leb s a) eqn:E.
    + constructor; [constructor; assumption|]. now constructor.
    + constructor; [exact IH|].
      assert (Has : string_le a s).
      { unfold string_le. destruct (String.leb_total s a); congruence. }
      destruct l as [|b l]; simpl.
      * now constructor.
      * destruct (String.leb s b); constructor; [exact Has|].
        now inversion Hhd.
Qed.

Lemma sort_strings_Sorted (l : list string) :
  Sorted string_le (sort_strings l).
Proof.
  induction l as [|a l IH]; simpl; [constructor|].
  now apply insert_string_Sorted.
Qed.

Lemma sort_strings_of_sorted (l : list string) :
  Sorted string_le l -> sort_strings l = l.
Proof.
  induction 1 as [|a l _ IH Hhd]; simpl; [reflexivity|].
  rewrite IH. destruct Hhd as [|b l Hab]; simpl; [reflexivity|].
  unfold string_le in Hab. now rewrite Hab.
Qed.

(** X18.  With STATUS metadata and a summary that holds status dates,
    the update returns; the revision's temporalStatusDates and the
    summary's statusDates are left holding one list, the given dates
    rearranged in ascending string order with their repetitions kept.
    A second update changes neither dictionary. *)
Theorem metadata_update_sorts_status_dates (md : metadata)
  (td : temporal_data) (dates : list string) :
  temporalityType md = "STATUS" ->
  td_statusDates td = Some dates ->
  let '(md', td', raised) := metadata_update_temporal_coverage md td in
  raised = Ok tt /\
  (exists sorted,
      temporalStatusDates (dataRevision md') = Some sorted /\
      td_statusDates td' = Some sorted /\
      Permutation sorted dates /\ Sorted string_le sorted) /\
  metadata_update_temporal_coverage md' td' = (md', td', Ok tt).
Proof.
  intros Hmd Hdates. unfold metadata_update_temporal_coverage.
  rewrite Hmd, Hdates. cbn [String.eqb Ascii.eqb Bool.eqb].
  cbn [dataRevision temporalityType td_statusDates td_start td_latest
       temporalCoverageStart temporalCoverageLatest temporalStatusDates].
  split; [reflexivity|]. split.
  - exists (sort_strings dates). repeat split.
    + apply sort_strings_Permutation.
    + apply sort_strings_Sorted.
  - now rewrite (sort_strings_of_sorted _ (sort_strings_Sorted dates)).
Qed.

(** ** The reader *)

Lemma cast_int16_Read (column column' : list (option Z)) :
  cast_int16 column = Read column' ->
  column' = column /\ forallb int16_cell column = true.
Proof.
  unfold cast_int16.
  destruct (find _ column) as [[z|]|] eqn:E; try discriminate.
  - apply find_some in E. destruct E as [_ E]. discriminate.
  - intros H. injection H as <-. split; [reflexivity|].
    apply forallb_forall. intros c Hc.
    apply (find_none _ _ E) in Hc. now apply negb_false_iff in Hc.
Qed.

Lemma cast_int16_fits (column : list (option Z)) :
  forallb int16_cell column = true -> cast_int16 column = Read column.
Proof.
  intros H. unfold cast_int16.
  destruct (find _ column) as [[z|]|] eqn:E; try reflexivity.
  apply find_some in E. destruct E as [Hin E].
  rewrite forallb_forall in H. rewrite (H _ Hin) in E. discriminate.
Qed.

Lemma cast_int16_Raise (column : list (option Z)) (z : Z) :
  cast_int16 column = RaiseArrowInvalid z ->
  In (Some z) column /\ int16 z = false.
Proof.
  unfold cast_int16.
  destruct (find _ column) as [[z'|]|] eqn:E; try discriminate.
  intros H. injection H as <-. apply find_some in E.
  destruct E as [Hin E]. split; [exact Hin|]. now apply negb_true_iff in E.
Qed.

Lemma cast_int16_no_exception (column : list (option Z)) (e : exn) :
  cast_int16 column <> RaisePython e.
Proof. unfold cast_int16. destruct (find _ column) as [[z|]|]; discriminate. Qed.

Lemma cast_int16_cons {B : Type} (c : option Z) (l : list (option Z))
  (k : read_result B) :
  rbind (cast_int16 (c :: l)) (fun _ => k) =
  match c with
  | Some z => if int16 z then rbind (cast_int16 l) (fun _ => k)
              else RaiseArrowInvalid z
  | None => rbind (cast_int16 l) (fun _ => k)
  end.
Proof.
  unfold cast_int16. simpl. destruct c as [z|]; simpl.
  - destruct (int16 z); simpl; [|reflexivity].
    destruct (find _ l) as [[z'|]|]; reflexivity.
  - destruct (find _ l) as [[z'|]|]; reflexivity.
Qed.

Lemma cast_int16_app {B : Type} (a b : list (option Z)) (k : read_result B) :
  rbind (cast_int16 (a ++ b)) (fun _ => k) =
  rbind (cast_int16 a) (fun _ => rbind (cast_int16 b) (fun _ => k)).
Proof.
  induction a as [|c a IH].
  - reflexivity.
  - rewrite <- app_comm_cons, !cast_int16_cons, IH. reflexivity.
Qed.

Lemma cast_value_int16_cast (column : list (option value)) :
  cast_value_int16 column =
  rbind (cast_int16 (map value_days column)) (fun _ => Read column).
Proof.
  unfold cast_value_int16, cast_int16.
  destruct (find _ _) as [[z|]|]; reflexivity.
Qed.

Lemma from_arrays_rows {A : Type} (l : list A) (f1 : A -> option string)
  (f2 : A -> option value) (f3 : A -> option string) (f4 f5 : A -> option Z) :
  from_arrays (map f1 l) (map f2 l) (map f3 l) (map f4 l) (map f5 l) =
  map (fun x => mkRow (f1 x) (f2 x) (f3 x) (f4 x) (f5 x)) l.
Proof. induction l as [|x l IH]; simpl; [reflexivity | now rewrite IH]. Qed.

Lemma measure_column (measure_data_type : string) (raw : list raw_row) :
  (if negb (measure_data_type =? "STRING")
   then map raw_value raw
   else map (fun r => option_map trim_value (raw_value r)) raw) =
  map (fun r => if measure_data_type =? "STRING"
                then option_map trim_value (raw_value r)
                else raw_value r) raw.
Proof. destruct (measure_data_type =? "STRING"); reflexivity. Qed.

Lemma date_measure_days (measure_data_type : string) (raw : list raw_row) :
  (measure_data_type =? "DATE") = true ->
  map value_days
    (map (fun r => if measure_data_type =? "STRING"
                   then option_map trim_value (raw_value r)
                   else raw_value r) raw) =
  map (fun r => value_days (raw_value r)) raw.
Proof.
  intros H. apply String.eqb_eq in H. subst. simpl. now rewrite map_map.
Qed.

(** What the reader does with a table that was read. *)
Lemma sanitize_data_rows
  (read_csv : list string -> csv_convert_options -> csv_outcome)
  (measure_data_type : string) (options : csv_convert_options)
  (raw : list raw_row) :
  get_csv_convert_options measure_data_type = Ok options ->
  read_csv get_csv_read_options options = CsvTable raw ->
  sanitize_data read_csv measure_data_type =
  rbind (cast_int16 (cast_cells measure_data_type raw))
        (fun _ => Read (map (sanitized_row measure_data_type) raw)).
Proof.
  intros Hoptions Hread. unfold sanitize_data.
  rewrite Hoptions, Hread, measure_column. unfold cast_cells.
  assert (Hrows : from_arrays
            (map (fun r => option_map utf8_trim (raw_unit_id r)) raw)
            (map (fun r => if measure_data_type =? "STRING"
                           then option_map trim_value (raw_value r)
                           else raw_value r) raw)
            (map (fun r => option_map
                             (fun d => substring 0 4 (date_string d))
                             (raw_start r)) raw)
            (map raw_start raw) (map raw_stop raw) =
          map (sanitized_row measure_data_type) raw)
    by apply from_arrays_rows.
  assert (Htail :
    rbind (cast_int16 (map raw_start raw)) (fun epoch_start =>
    rbind (cast_int16 (map raw_stop raw)) (fun epoch_stop =>
      Read (from_arrays
              (map (fun r => option_map utf8_trim (raw_unit_id r)) raw)
              (map (fun r => if measure_data_type =? "STRING"
                             then option_map trim_value (raw_value r)
                             else raw_value r) raw)
              (map (fun r => option_map
                               (fun d => substring 0 4 (date_string d))
                               (raw_start r)) raw)
              epoch_start epoch_stop))) =
    rbind (cast_int16 (map raw_start raw ++ map raw_stop raw))
          (fun _ => Read (map (sanitized_row measure_data_type) raw))).
  { rewrite cast_int16_app.
    destruct (cast_int16 (map raw_start raw)) as [a| |] eqn:Ea;
      cbn [rbind]; try reflexivity.
    apply cast_int16_Read in Ea. destruct Ea as [-> _].
    destruct (cast_int16 (map raw_stop raw)) as [b| |] eqn:Eb;
      cbn [rbind]; try reflexivity.
    apply cast_int16_Read in Eb. destruct Eb as [-> _].
    now rewrite Hrows. }
  destruct (measure_data_type =? "DATE") eqn:Hdate.
  - rewrite cast_value_int16_cast, (date_measure_days _ _ Hdate).
    rewrite cast_int16_app.
    destruct (cast_int16 (map (fun r => value_days (raw_value r)) raw));
      cbn [rbind]; [exact Htail | reflexivity | reflexivity].
  - cbn [rbind app]. exact Htail.
Qed.

Lemma sanitized_rows_int16 (measure_data_type : string) (raw : list raw_row) :
  forallb int16_cell (cast_cells measure_data_type raw) = true ->
  int16_table (map (sanitized_row measure_data_type) raw) = true.
Proof.
  unfold cast_cells, int16_table.
  rewrite !forallb_app, !andb_true_iff, !forallb_forall.
  intros [_ [Hstart Hstop]] r Hr.
  apply in_map_iff in Hr. destruct Hr as [x [<- Hx]].
  cbn [sanitized_row start_epoch_days stop_epoch_days].
  rewrite (Hstart (raw_start x)), (Hstop (raw_stop x));
    [reflexivity | |]; apply in_map_iff; exists x; auto.
Qed.

(** X19.  A table the reader returns is the table that was read, row
    by row in the order of the file: identifiers trimmed, string values
    trimmed, the year of the start beside it.  Its epoch-day columns,
    and its values when the measure is a date, are in the 16-bit
    range. *)
Theorem sanitize_data_table
  (read_csv : list string -> csv_convert_options -> csv_outcome)
  (measure_data_type : string) (t : table) :
  sanitize_data read_csv measure_data_type = Read t ->
  exists options raw,
    get_csv_convert_options measure_data_type = Ok options /\
    read_csv get_csv_read_options options = CsvTable raw /\
    t = map (sanitized_row measure_data_type) raw /\
    int16_table t = true /\
    (measure_data_type = "DATE" ->
     Forall (fun r => int16_cell (value_days (value_ r)) = true) t).
Proof.
  intros H.
  destruct (get_csv_convert_options measure_data_type) as [options|e]
    eqn:Hoptions.
  2: { unfold sanitize_data in H. rewrite Hoptions in H. discriminate. }
  destruct (read_csv get_csv_read_options options) as [raw|d] eqn:Hread.
  2: { unfold sanitize_data in H. rewrite Hoptions, Hread in H.
       discriminate. }
  rewrite (sanitize_data_rows _ _ _ _ Hoptions Hread) in H.
  destruct (cast_int16 (cast_cells measure_data_type raw)) as [cells| |]
    eqn:Hcast; cbn [rbind] in H; try discriminate.
  injection H as <-. apply cast_int16_Read in Hcast.
  destruct Hcast as [_ Hfit].
  exists options, raw. repeat split; try assumption.
  - now apply sanitized_rows_int16.
  - intros ->. unfold cast_cells in Hfit. simpl in Hfit.
    rewrite forallb_app, andb_true_iff, forallb_forall in Hfit.
    destruct Hfit as [Hvalues _].
    apply Forall_forall. intros r Hr.
    apply in_map_iff in Hr. destruct Hr as [x [<- Hx]].
    cbn [sanitized_row value_]. simpl.
    apply Hvalues. apply in_map_iff. exists x. auto.
Qed.

(** X20.  The reader fails in three ways.  An unsupported measure type
    is a [ValidationError] raised before the file is read; an
    [ArrowInvalid] of the parser comes back as the [ValidationError]
    of the read, carrying the parser's diagnostic; a date outside the
    16-bit range of days is an [ArrowInvalid] of the cast that is not
    turned into a [ValidationError]. *)
Theorem sanitize_data_errors
  (read_csv : list string -> csv_convert_options -> csv_outcome)
  (measure_data_type : string) :
  (forall e, get_csv_convert_options measure_data_type = Raise e ->
             sanitize_data read_csv measure_data_type = RaisePython e /\
             e = ValidationError "Unsupported measure data type"
                   [[Text "Unsupported measure data type: ";
                     Text measure_data_type]]) /\
  (forall options d,
      get_csv_convert_options measure_data_type = Ok options ->
      read_csv get_csv_read_options options = CsvInvalid d ->
      sanitize_data read_csv measure_data_type =
      RaisePython (ValidationError "Error when reading dataset" [[Text d]])) /\
  (forall options raw,
      get_csv_convert_options measure_data_type = Ok options ->
      read_csv get_csv_read_options options = CsvTable raw ->
      (forallb int16_cell (cast_cells measure_data_type raw) = false <->
       exists z, sanitize_data read_csv measure_data_type =
                 RaiseArrowInvalid z /\
                 In (Some z) (cast_cells measure_data_type raw) /\
                 int16 z = false)).
Proof.
  split; [|split].
  - intros e He. split.
    + unfold sanitize_data. now rewrite He.
    + unfold get_csv_convert_options in He.
      destruct (measure_data_type =? "STRING"); [discriminate|].
      destruct (measure_data_type =? "LONG"); [discriminate|].
      destruct (measure_data_type =? "DOUBLE"); [discriminate|].
      destruct (measure_data_type =? "DATE"); [discriminate|].
      cbn [bind] in He. congruence.
  - intros options d Hoptions Hread. unfold sanitize_data.
    now rewrite Hoptions, Hread.
  - intros options raw Hoptions Hread.
    rewrite (sanitize_data_rows _ _ _ _ Hoptions Hread).
    destruct (cast_int16 (cast_cells measure_data_type raw)) as [cells|z|e]
      eqn:Hcast; cbn [rbind].
    + apply cast_int16_Read in Hcast. destruct Hcast as [_ Hfit].
      rewrite Hfit. split; [discriminate|]. intros [z [H _]]. discriminate.
    + destruct (cast_int16_Raise _ _ Hcast) as [Hin Hz]. split.
      * intros _. exists z. auto.
      * intros _. destruct (forallb _ _) eqn:Hfit; [|reflexivity].
        rewrite forallb_forall in Hfit. apply Hfit in Hin. simpl in Hin.
        congruence.
    + exfalso. now apply cast_int16_no_exception in Hcast.
Qed.

(** ** Trimming *)

Lemma ltrim_spec (s : string) :
  (exists n, s = (spaces n ++ ltrim s)%string) /\ first_char (ltrim s) <> Some " "%char.
Proof.
  induction s as [|c s [[n Hn] Hfirst]]; simpl.
  - split; [now exists 0 | discriminate].
  - destruct (Ascii.eqb_spec c " ") as [->|Hne].
    + split; [|exact Hfirst]. exists (S n). simpl. now rewrite <- Hn.
    + split; [now exists 0|]. simpl. congruence.
Qed.

Lemma rtrim_spec (s : string) :
  (exists n, s = (rtrim s ++ spaces n)%string) /\ last_char (rtrim s) <> Some " "%char.
Proof.
  induction s as [|c s [[n Hn] Hlast]]; simpl.
  - split; [now exists 0 | discriminate].
  - destruct (rtrim s) as [|c' r] eqn:Er.
    + destruct (Ascii.eqb_spec c " ") as [->|Hne].
      * split; [|discriminate]. exists (S n). simpl in *. now rewrite <- Hn.
      * split; [|simpl; congruence]. exists n. simpl in *. now rewrite <- Hn.
    + split; [|exact Hlast]. exists n. simpl in *. now rewrite <- Hn.
Qed.

Lemma rtrim_first_char (s : string) :
  rtrim s = EmptyString \/ first_char (rtrim s) = first_char s.
Proof.
  destruct s as [|c s]; simpl; [now left|].
  destruct (rtrim s).
  - destruct (Ascii.eqb c " "); [now left | now right].
  - now right.
Qed.

Lemma ltrim_fixed (s : string) :
  first_char s <> Some " "%char -> ltrim s = s.
Proof.
  destruct s as [|c s]; simpl; [reflexivity|].
  destruct (Ascii.eqb_spec c " ") as [->|Hne]; [|reflexivity].
  intros H. now contradiction H.
Qed.

Lemma rtrim_fixed (s : string) :
  last_char s <> Some " "%char -> rtrim s = s.
Proof.
  induction s as [|c s IH]; simpl; [reflexivity|].
  destruct s as [|c' s'].
  - simpl. destruct (Ascii.eqb_spec c " ") as [->|Hne]; [|reflexivity].
    intros H. now contradiction H.
  - intros H. now rewrite (IH H).
Qed.

Lemma utf8_trim_ends (s : string) :
  first_char (utf8_trim s) <> Some " "%char /\
  last_char (utf8_trim s) <> Some " "%char.
Proof.
  unfold utf8_trim. split; [|apply rtrim_spec].
  destruct (rtrim_first_char (ltrim s)) as [Hr | Hr]; rewrite Hr; [discriminate|].
  apply ltrim_spec.
Qed.

Lemma utf8_trim_spaces (n : nat) : utf8_trim (spaces n) = EmptyString.
Proof.
  unfold utf8_trim. induction n as [|n IH]; simpl; [reflexivity | exact IH].
Qed.

(** X21.  Trimming removes spaces at the two ends and nothing else:
    the string is the trimmed string between two runs of spaces, the
    trimmed string neither starts nor ends with a space, trimming
    twice is trimming once, and a string of spaces trims to the empty
    string. *)
Theorem utf8_trim_spec (s : string) :
  (exists n m, s = (spaces n ++ utf8_trim s ++ spaces m)%string) /\
  first_char (utf8_trim s) <> Some " "%char /\
  last_char (utf8_trim s) <> Some " "%char /\
  utf8_trim (utf8_trim s) = utf8_trim s /\
  (forall n, utf8_trim (spaces n) = EmptyString).
Proof.
  destruct (utf8_trim_ends s) as [Hfirst Hlast].
  split; [|split; [exact Hfirst|split; [exact Hlast|split]]].
  - destruct (ltrim_spec s) as [[n Hn] _].
    destruct (rtrim_spec (ltrim s)) as [[m Hm] _].
    exists n, m. unfold utf8_trim. now rewrite <- Hm.
  - unfold utf8_trim at 1.
    now rewrite (ltrim_fixed _ Hfirst), (rtrim_fixed _ Hlast).
  - apply utf8_trim_spaces.
Qed.

(** ** The reader and the rules *)

(** X22.  On a table the reader returns, the identifier rule passes
    exactly when every identifier read from the file holds a
    character other than a space: an identifier of spaces alone is
    trimmed to the empty string and refused. *)
Theorem sanitize_data_identifier_rule
  (read_csv : list string -> csv_convert_options -> csv_outcome)
  (measure_data_type : string) (options : csv_convert_options)
  (raw : list raw_row) (t : table) :
  get_csv_convert_options measure_data_type = Ok options ->
  read_csv get_csv_read_options options = CsvTable raw ->
  sanitize_data read_csv measure_data_type = Read t ->
  (valid_unit_id_check t = Ok tt <->
   Forall (fun r => exists u, raw_unit_id r = Some u /\
                              forall n, u <> spaces n) raw).
Proof.
  intros Hoptions Hread Ht.
  rewrite (sanitize_data_rows _ _ _ _ Hoptions Hread) in Ht.
  destruct (cast_int16 _) as [cells| |]; cbn [rbind] in Ht; try discriminate.
  injection Ht as <-.
  rewrite valid_unit_id_check_Ok, Forall_map.
  apply Forall_iff. intros r.
  unfold unit_id_row_valid. cbn [sanitized_row unit_id].
  destruct (raw_unit_id r) as [u|]; simpl.
  - split.
    + intros [u' [Hu' Hne]]. injection Hu' as <-.
      exists u. split; [reflexivity|]. intros n ->.
      now rewrite utf8_trim_spaces in Hne.
    + intros [u' [Hu' Hspaces]]. injection Hu' as <-.
      exists (utf8_trim u). split; [reflexivity|]. intros Hempty.
      destruct (utf8_trim_spec u) as [[n [m Hu]] _].
      rewrite Hempty in Hu. simpl in Hu.
      apply (Hspaces (n + m)). rewrite Hu.
      clear. induction n as [|n IH]; simpl; [reflexivity | now rewrite IH].
  - split; intros [u [Hu _]]; discriminate.
Qed.

(** X23.  On a table the reader returns, the temporal summary returns
    exactly when the table holds the values it is computed from; the
    16-bit range the dates need is what the reader's casts have
    checked. *)
Theorem sanitize_data_temporal_data
  (read_csv : list string -> csv_convert_options -> csv_outcome)
  (measure_data_type : string) (t : table) (temporality_type : string) :
  sanitize_data read_csv measure_data_type = Read t ->
  ((exists td, get_temporal_data t temporality_type = Ok td) <->
   coverage_defined t temporality_type = true).
Proof.
  intros Ht. apply get_temporal_data_Ok.
  destruct (get_csv_convert_options measure_data_type) as [options|e]
    eqn:Hoptions.
  2: { unfold sanitize_data in Ht. rewrite Hoptions in Ht. discriminate. }
  destruct (read_csv get_csv_read_options options) as [raw|d] eqn:Hread.
  2: { unfold sanitize_data in Ht. rewrite Hoptions, Hread in Ht.
       discriminate. }
  rewrite (sanitize_data_rows _ _ _ _ Hoptions Hread) in Ht.
  destruct (cast_int16 (cast_cells measure_data_type raw)) as [cells| |]
    eqn:Hcast; cbn [rbind] in Ht; try discriminate.
  injection Ht as <-. apply cast_int16_Read in Hcast.
  now apply sanitized_rows_int16.
Qed.

(** ** The further properties on the example tables *)

Lemma valid_value_column_check_with_code_list_witness :
  string_column coded_rows /\
  (valid_value_column_check coded_rows "STRING"
     (Some [mkCode (VString "A") "a code"])
     (Some [mkCode (VString "X9") "a sentinel"]) = Ok tt <->
   Forall (fun r => exists s,
               value_ r = Some (VString s) /\
               ("STRING" = "STRING" -> s <> EmptyString) /\
               In s (code_strings [mkCode (VString "A") "a code"]
                       (Some [mkCode (VString "X9") "a sentinel"])))
     coded_rows).
Proof.
  assert (Hcolumn : string_column coded_rows) by (repeat constructor).
  split; [exact Hcolumn|].
  apply (valid_value_column_check_with_code_list coded_rows "STRING"
           (mkCode (VString "A") "a code") []
           (Some [mkCode (VString "X9") "a sentinel"])).
  - repeat constructor. now exists "A".
  - repeat constructor. now exists "X9".
  - exact Hcolumn.
Defined.

Lemma no_overlapping_timespans_check_pairwise_disjoint_witness :
  event_temporal_variables_check event_rows = Ok tt /\
  (no_overlapping_timespans_check event_rows = Ok tt <->
   forall u, ForallOrdPairs disjoint (rows_of u event_rows)).
Proof.
  split; [reflexivity|].
  exact (no_overlapping_timespans_check_pairwise_disjoint event_rows
           (or_introl eq_refl)).
Defined.

Lemma find_overlap_errors_witness :
  ((exists b, find_overlap [Some 1%Z; None] [Some 2%Z; Some 3%Z] = Ok b) \/
   (find_overlap [Some 1%Z; None] [Some 2%Z; Some 3%Z] =
    Raise (TypeError "'>' not supported between instances of 'int' and 'NoneType'") /\
    exists i, nth_error [Some 1%Z; None] (S i) = Some None)) /\
  (List.length [Some 1%Z; None] <= 1 ->
   find_overlap [Some 1%Z; None] [Some 2%Z; Some 3%Z] = Ok false).
Proof.
  exact (find_overlap_errors [Some 1%Z; None] [Some 2%Z; Some 3%Z] eq_refl).
Defined.

Lemma validate_dataset_unknown_temporality_type_witness :
  known_temporality_type "fixed" = false /\
  (snd (validate_dataset fixed_rows "LONG" None None "fixed" []) = Ok tt <->
   Forall unit_id_row_valid fixed_rows /\
   valid_value_column_check fixed_rows "LONG" None None = Ok tt).
Proof.
  split; [reflexivity|].
  exact (proj1 (validate_dataset_unknown_temporality_type fixed_rows "LONG"
                  None None "fixed" eq_refl)).
Defined.

Lemma get_temporal_data_fixed_witness :
  exists td,
    get_temporal_data fixed_rows "FIXED" = Ok td /\
    td_start td = "1900-01-01" /\ td_statusDates td = None.
Proof.
  eexists. split; [reflexivity|].
  pose proof (get_temporal_data_fixed fixed_rows _ eq_refl) as H.
  split; [exact (proj1 H) | exact (proj1 (proj2 H))].
Defined.

Lemma get_temporal_data_bounds_witness :
  get_temporal_data event_rows "EVENT" = Ok event_summary /\
  is_some (td_statusDates event_summary) = ("EVENT" =? "STATUS").
Proof.
  split; [reflexivity|].
  exact (proj2 (get_temporal_data_bounds event_rows "EVENT" event_summary
                  eq_refl eq_refl)).
Defined.

Lemma metadata_update_missing_status_dates_witness :
  get_temporal_data event_rows "EVENT" = Ok event_summary /\
  snd (metadata_update_temporal_coverage status_metadata event_summary) =
  Raise (KeyError "statusDates").
Proof.
  split; [reflexivity|].
  pose proof (metadata_update_missing_status_dates event_rows "EVENT"
                event_summary status_metadata eq_refl) as H.
  cbv zeta in H.
  destruct (metadata_update_temporal_coverage status_metadata event_summary)
    as [[md' td'] raised] eqn:E.
  apply (proj1 (proj2 H)). split; [reflexivity | discriminate].
Defined.

Lemma metadata_update_sorts_status_dates_witness :
  temporalityType status_metadata = "STATUS" /\
  fst (metadata_update_temporal_coverage status_metadata unsorted_summary) =
  fst (metadata_update_temporal_coverage
         (fst (fst (metadata_update_temporal_coverage status_metadata
                      unsorted_summary)))
         (snd (fst (metadata_update_temporal_coverage status_metadata
                      unsorted_summary)))).
Proof.
  split; [reflexivity|].
  pose proof (metadata_update_sorts_status_dates status_metadata
                unsorted_summary _ eq_refl eq_refl) as H.
  cbv zeta in H.
  destruct (metadata_update_temporal_coverage status_metadata
              unsorted_summary) as [[md' td'] raised].
  cbn [fst snd]. now rewrite (proj2 (proj2 H)).
Defined.

Lemma sanitize_data_table_witness :
  exists t,
    sanitize_data example_csv "STRING" = Read t /\
    int16_table t = true /\
    map unit_id t = [Some "A"; Some "B"; Some EmptyString].
Proof.
  eexists. split; [reflexivity|].
  destruct (sanitize_data_table example_csv "STRING" _ eq_refl)
    as [options [raw [_ [_ [_ [Hint _]]]]]].
  split; [exact Hint | reflexivity].
Defined.

Lemma sanitize_data_identifier_rule_witness :
  exists t,
    sanitize_data example_csv "STRING" = Read t /\
    (valid_unit_id_check t = Ok tt <->
     Forall (fun r => exists u, raw_unit_id r = Some u /\
                                forall n, u <> spaces n)
       [mkRaw (Some " A ") (Some (VString " x ")) (Some 0%Z) (Some 10%Z) None;
        mkRaw (Some "B") (Some (VString "y")) (Some 365%Z) None None;
        mkRaw (Some "   ") (Some (VString "z")) None (Some 19723%Z) None]).
Proof.
  eexists. split; [reflexivity|].
  exact (sanitize_data_identifier_rule example_csv "STRING" _ _ _
           eq_refl eq_refl eq_refl).
Defined.

Lemma sanitize_data_temporal_data_witness :
  exists t,
    sanitize_data example_csv "STRING" = Read t /\
    ((exists td, get_temporal_data t "EVENT" = Ok td) <->
     coverage_defined t "EVENT" = true).
Proof.
  eexists. split; [reflexivity|].
  exact (sanitize_data_temporal_data example_csv "STRING" _ "EVENT" eq_refl).
Defined.

(** The reader on the example file, by evaluation: the cast refuses a
    day past the 16-bit range, and the error is not a
    [ValidationError]. *)
Example sanitize_data_day_out_of_range :
  sanitize_data
    (fun _ _ => CsvTable [mkRaw (Some "A") (Some (VLong 1)) (Some 40000%Z)
                            None None]) "LONG" =
  RaiseArrowInvalid 40000%Z.
Proof. reflexivity. Qed.
